(** * Verification of the Musinsa collection loop

    Shallow embedding of [src/database/musinsa_crawler.py]:
    [extract_product_info] (per-item field extraction) and [crawl_musinsa]
    (the scan / scroll / terminate loop), followed by the properties the
    specification states about them.

    Modelling conventions.
    - Python exceptions are values of [exn]; a computation that may raise
      has type [result A].  Only subclasses of [Exception] are modelled.
    - A Selenium [WebElement] is a live handle: every query goes to the
      document as it is when the query is made.  The answers of a handle are
      indexed by the number of queries made on it before, so the same query
      asked twice may be answered differently.  Handles returned by
      different scans are different values.
    - The browser and the file system are an oracle [Driver]: the answers
      are indexed by the number of the call, so every possible sequence of
      answers is covered.
    - Python [str] is modelled by [string] (a byte sequence, UTF-8).  The
      only character the code inspects is the ASCII question mark, whose
      byte never occurs inside a multi-byte UTF-8 sequence.
    - [setup_driver] runs before the [try] block of [crawl_musinsa]; a run
      of the model starts with the driver at hand.
    - [print] and [time.sleep] calls have no effect on the modelled state
      and are left out. *)

From Stdlib Require Import Ascii.
From stdpp Require Import gmap strings list.

Open Scope string_scope.
Open Scope list_scope.
Open Scope nat_scope.

(** ** Exceptions and fallible computations *)

Inductive exn : Type :=
  | NoSuchElementException
  | StaleElementReferenceException
  | TimeoutException
  | WebDriverException
  | IndexError
  | TypeError
  | OSError.

Inductive result (A : Type) : Type :=
  | Return (a : A)
  | Raise (e : exn).
Arguments Return {A} a.
Arguments Raise {A} e.

Global Instance result_ret : MRet result := λ A a, Return a.
Global Instance result_bind : MBind result := λ A B f m,
  match m with
  | Return a => f a
  | Raise e => Raise e
  end.
Global Instance result_fmap : FMap result := λ A B f m,
  match m with
  | Return a => Return (f a)
  | Raise e => Raise e
  end.

(** [try: body except NoSuchElementException: handler] *)
Definition except_NoSuchElement {A} (body : result A) (handler : A) : result A :=
  match body with
  | Raise NoSuchElementException => Return handler
  | other => other
  end.

(** ** Python values used by the crawler *)

(** Truth value of an [Optional[str]]: [None] and the empty string are
    falsy. *)
Definition truthy (v : option string) : bool :=
  match v with
  | None => false
  | Some s => negb (String.eqb s "")
  end.

(** [c in s] for a one-character [c]. *)
Fixpoint str_contains (c : Ascii.ascii) (s : string) : bool :=
  match s with
  | EmptyString => false
  | String a s' => if Ascii.eqb a c then true else str_contains c s'
  end.

(** [s.split(c)[0]]: the part of [s] before the first [c]. *)
Fixpoint split_head (c : Ascii.ascii) (s : string) : string :=
  match s with
  | EmptyString => EmptyString
  | String a s' => if Ascii.eqb a c then EmptyString else String a (split_head c s')
  end.

(** [l[i]] on a Python list. *)
Definition index {A} (l : list A) (i : nat) : result A :=
  match l !! i with
  | Some x => Return x
  | None => Raise IndexError
  end.

(** ** The rendered document, as Selenium shows it *)

(** An element found below an item, with what it answers when it is read:
    [get_attribute(name)] and [.text].  The crawler reads every element it
    finds once, right after finding it; an element found by a later query
    is another value and may answer differently. *)
Record Element : Type := {
  get_attribute : string → result (option string);
  text : result string
}.

(** An item handle.  [find_element item n sel] is the answer to
    [item.find_element(By.CSS_SELECTOR, sel)] when [n] queries have been
    made on the handle before, and likewise [find_elements]: the document
    may change between two queries, and so may the answer to the same
    selector. *)
Record WebElement : Type := {
  find_element : nat → string → result Element;
  find_elements : nat → string → result (list Element)
}.

(** The handle once [k] queries have been made on it. *)
Definition later (k : nat) (item : WebElement) : WebElement :=
  {| find_element := λ n, find_element item (k + n);
     find_elements := λ n, find_elements item (k + n) |}.

Definition link_selector : string := "a.sc-cOpnSz.keqfmf".
Definition brand_selector : string :=
  "span.text-etc_11px_semibold.sc-hwkwBN.sc-kNOymR".
Definition name_selector : string :=
  "span.text-body_13px_reg.sc-hwkwBN.sc-dYwGCk".
Definition price_selector : string :=
  "span.text-body_13px_semi.sc-jJLAfE.gsJKfg.font-pretendard".
Definition img_selector : string := "img.max-w-full.w-full.absolute".

(** The [product_data] dictionary once all five keys are set. *)
Record Product : Type := {
  product_url : option string;
  brand_name : option string;
  product_name : option string;
  price : option string;
  image_url : option string
}.

Global Instance Product_eq_dec : EqDecision Product.
Proof. solve_decision. Defined.

(** ** [extract_product_info] *)

(** The five [try] bodies, one per field.  Each makes one query on the
    item, whether the one before returned or raised: the link is the first
    query of [extract_product_info], the brand the second, and so on. *)
Definition lookup_product_url (item : WebElement) : result (option string) :=
  link_element ← find_element item 0 link_selector;
  get_attribute link_element "href".

Definition lookup_brand_name (item : WebElement) : result (option string) :=
  brand_element ← find_element item 1 brand_selector;
  Some <$> text brand_element.

Definition lookup_product_name (item : WebElement) : result (option string) :=
  product_name_element ← find_element item 2 name_selector;
  Some <$> text product_name_element.

Definition lookup_price (item : WebElement) : result (option string) :=
  price_elements ← find_elements item 3 price_selector;
  if decide (2 ≤ length price_elements)%nat then
    e ← index price_elements 1; Some <$> text e
  else if decide (length price_elements = 1%nat) then
    e ← index price_elements 0; Some <$> text e
  else
    Return None.

(** [if image_url and '?' in image_url: image_url = image_url.split('?')[0]] *)
Definition strip_query (image_url : option string) : option string :=
  match image_url with
  | Some s =>
      if truthy image_url && str_contains "?"%char s
      then Some (split_head "?"%char s)
      else image_url
  | None => image_url
  end.

Definition lookup_image_url (item : WebElement) : result (option string) :=
  img_element ← find_element item 4 img_selector;
  image_url ← get_attribute img_element "src";
  Return (strip_query image_url).

Definition extract_product_info (item : WebElement) : result Product :=
  url ← except_NoSuchElement (lookup_product_url item) None;
  brand ← except_NoSuchElement (lookup_brand_name item) None;
  name ← except_NoSuchElement (lookup_product_name item) None;
  prc ← except_NoSuchElement (lookup_price item) None;
  img ← except_NoSuchElement (lookup_image_url item) None;
  Return {| product_url := url; brand_name := brand; product_name := name;
            price := prc; image_url := img |}.

(** ** The browser session *)

(** What the run does to the outside world, in order. *)
Inductive Event : Type :=
  | EvGet (url : string)                 (* driver.get(url) *)
  | EvWaitUntil                          (* wait.until(presence_of_element_located) *)
  | EvFindElements                       (* driver.find_elements(...): one scan *)
  | EvScrollTo (target_position : Z)     (* window.scrollTo(0, target_position) *)
  | EvOpen (output_file : string)        (* open(output_file, 'w') returned *)
  | EvJsonDump (output_file : string) (data : list Product)
                                         (* json.dump(data, f) returned, f closed *)
  | EvQuit.                              (* driver.quit() *)

Global Instance Event_eq_dec : EqDecision Event.
Proof. solve_decision. Defined.

(** The answers of the browser and of the file system.  [driver_find_elements n]
    answers the [n]-th scan; the three scripts of a scroll are indexed by
    [scroll_count].  [open_w] answers [open(output_file, 'w')], which creates
    or empties the file when it returns; [json_dump] answers the body of the
    [with] block and the closing of the file.  [driver.quit()] of the Chrome
    driver suppresses its own errors, so it has no failing answer. *)
Record Driver : Type := {
  get : string → result ();
  wait_until : result ();
  driver_find_elements : nat → result (list WebElement);
  page_y_offset : nat → result Z;
  scroll_height : nat → result Z;
  scroll_to : nat → Z → result ();
  open_w : string → result ();
  json_dump : string → list Product → result ()
}.

(** ** [crawl_musinsa]: local variables and ghost state *)

Record State : Type := {
  products : list Product;
  collected_urls : gset (option string);
  collected_count : nat;
  scroll_count : nat;
  no_new_items_count : nat;
  new_items_found : nat;
  scan_count : nat;        (* ghost: number of scans started *)
  trace : list Event       (* ghost: events so far, oldest first *)
}.

Definition init_state : State :=
  {| products := []; collected_urls := ∅; collected_count := 0;
     scroll_count := 0; no_new_items_count := 0; new_items_found := 0;
     scan_count := 0; trace := [] |}.

Definition log (e : Event) (st : State) : State :=
  {| products := products st; collected_urls := collected_urls st;
     collected_count := collected_count st; scroll_count := scroll_count st;
     no_new_items_count := no_new_items_count st;
     new_items_found := new_items_found st;
     scan_count := scan_count st; trace := trace st ++ [e] |}.

Definition set_no_new_items_count (n : nat) (st : State) : State :=
  {| products := products st; collected_urls := collected_urls st;
     collected_count := collected_count st; scroll_count := scroll_count st;
     no_new_items_count := n;
     new_items_found := new_items_found st;
     scan_count := scan_count st; trace := trace st |}.

Definition set_new_items_found (n : nat) (st : State) : State :=
  {| products := products st; collected_urls := collected_urls st;
     collected_count := collected_count st; scroll_count := scroll_count st;
     no_new_items_count := no_new_items_count st;
     new_items_found := n;
     scan_count := scan_count st; trace := trace st |}.

Definition set_scroll_count (n : nat) (st : State) : State :=
  {| products := products st; collected_urls := collected_urls st;
     collected_count := collected_count st; scroll_count := n;
     no_new_items_count := no_new_items_count st;
     new_items_found := new_items_found st;
     scan_count := scan_count st; trace := trace st |}.

Definition start_scan (st : State) : State :=
  {| products := products st; collected_urls := collected_urls st;
     collected_count := collected_count st; scroll_count := scroll_count st;
     no_new_items_count := no_new_items_count st;
     new_items_found := new_items_found st;
     scan_count := S (scan_count st); trace := trace st ++ [EvFindElements] |}.

(** [products.append(product_data); collected_urls.add(product_url);
     collected_count += 1; new_items_found += 1] *)
Definition add_product (product_data : Product) (url : option string)
    (st : State) : State :=
  {| products := products st ++ [product_data];
     collected_urls := {[url]} ∪ collected_urls st;
     collected_count := collected_count st + 1;
     scroll_count := scroll_count st;
     no_new_items_count := no_new_items_count st;
     new_items_found := new_items_found st + 1;
     scan_count := scan_count st; trace := trace st |}.

(** The [try] block of the [for] loop.  Its first two statements read the
    link, the first query on the handle; [extract_product_info] then reads
    the link again, on the handle one query later.  The set remembers the
    first read, the record holds the second. *)
Definition item_try (item : WebElement) (st : State) : result () * State :=
  match lookup_product_url item with
  | Raise e => (Raise e, st)
  | Return url =>
      if decide (url ∈ collected_urls st) then (Return (), st)  (* continue *)
      else
        match extract_product_info (later 1 item) with
        | Raise e => (Raise e, st)
        | Return product_data =>
            if truthy (product_url product_data) then
              let st' := add_product product_data url st in
              if decide (collected_count st' mod 10 = 0)%nat then
                (* the progress line slices product_name: None[:40] *)
                match product_name product_data with
                | Some _ => (Return (), st')
                | None => (Raise TypeError, st')
                end
              else (Return (), st')
            else (Return (), st)
        end
  end.

(** Both handlers of the [for] body ([except NoSuchElementException] and
    [except Exception]) end in [continue]. *)
Definition item_step (item : WebElement) (st : State) : State :=
  snd (item_try item st).

Fixpoint for_items (max_items : nat) (items : list WebElement) (st : State)
    : State :=
  match items with
  | [] => st
  | item :: rest =>
      if decide (max_items ≤ collected_count st)%nat then st  (* break *)
      else for_items max_items rest (item_step item st)
  end.

Inductive Outcome : Type := reached_target | exhausted.

Inductive Flow : Type := Continue | Break (o : Outcome).

Global Instance Outcome_eq_dec : EqDecision Outcome.
Proof. solve_decision. Defined.

(** The scroll branch of one cycle. *)
Definition scroll (drv : Driver) (st : State) : result Flow * State :=
  match page_y_offset drv (scroll_count st) with
  | Raise e => (Raise e, st)
  | Return current_scroll =>
      match scroll_height drv (scroll_count st) with
      | Raise e => (Raise e, st)
      | Return _ =>
          let target_position := (current_scroll + 2000)%Z in
          let st := log (EvScrollTo target_position) st in
          match scroll_to drv (scroll_count st) target_position with
          | Raise e => (Raise e, st)
          | Return _ => (Return Continue, set_scroll_count (scroll_count st + 1) st)
          end
      end
  end.

(** What follows the [for] loop in the body of the [while] loop. *)
Definition evaluate (drv : Driver) (max_items : nat) (st : State)
    : result Flow * State :=
  if decide (0 < new_items_found st)%nat then
    let st := set_no_new_items_count 0 st in
    if decide (max_items ≤ collected_count st)%nat
    then (Return (Break reached_target), st)
    else (Return Continue, st)
  else
    let st := set_no_new_items_count (no_new_items_count st + 1) st in
    if decide (10 ≤ no_new_items_count st)%nat
    then (Return (Break exhausted), st)
    else scroll drv st.

(** One pass through the body of the [while] loop. *)
Definition cycle (drv : Driver) (max_items : nat) (st : State)
    : result Flow * State :=
  match driver_find_elements drv (scan_count st) with
  | Raise e => (Raise e, start_scan st)
  | Return items =>
      let st := set_new_items_found 0 (start_scan st) in
      evaluate drv max_items (for_items max_items items st)
  end.

(** The [while collected_count < max_items] loop.  [None]: the fuel ran
    out before the loop ended. *)
Fixpoint while_loop (fuel : nat) (drv : Driver) (max_items : nat) (st : State)
    : option (result Outcome * State) :=
  if decide (collected_count st < max_items)%nat then
    match fuel with
    | O => None
    | S fuel' =>
        match cycle drv max_items st with
        | (Raise e, st') => Some (Raise e, st')
        | (Return (Break o), st') => Some (Return o, st')
        | (Return Continue, st') => while_loop fuel' drv max_items st'
        end
    end
  else Some (Return reached_target, st).

(** The body of the outer [try]: how it ended, the way the [while] loop
    ended when it did (ghost), and the state it left. *)
Definition crawl_try (fuel : nat) (drv : Driver) (url output_file : string)
    (max_items : nat) (st : State)
    : option (result () * option Outcome * State) :=
  let st := log (EvGet url) st in
  match get drv url with
  | Raise e => Some (Raise e, None, st)
  | Return _ =>
      let st := log EvWaitUntil st in
      match wait_until drv with
      | Raise e => Some (Raise e, None, st)
      | Return _ =>
          let st := set_no_new_items_count 0 st in
          match while_loop fuel drv max_items st with
          | None => None
          | Some (Raise e, st) => Some (Raise e, None, st)
          | Some (Return o, st) =>
              (* with open(output_file, 'w', ...) as f: json.dump(products, f, ...) *)
              match open_w drv output_file with
              | Raise e => Some (Raise e, Some o, st)
              | Return _ =>
                  let st := log (EvOpen output_file) st in
                  match json_dump drv output_file (products st) with
                  | Raise e => Some (Raise e, Some o, st)
                  | Return _ =>
                      Some (Return (), Some o,
                            log (EvJsonDump output_file (products st)) st)
                  end
              end
          end
      end
  end.

(** A finished call of [crawl_musinsa]. *)
Record Run : Type := {
  returned : result (list Product);  (* the value returned, or the exception raised *)
  outcome : option Outcome;          (* ghost: how the [while] loop ended, if it did *)
  caught : option exn;               (* ghost: the exception the handler caught *)
  final : State
}.

(** Every cycle that does not end the loop either collects an item or
    counts one more empty scan, so [10 * max_items] cycles are enough (see
    [while_loop_terminates]). *)
Definition crawl_fuel (max_items : nat) : nat := 10 * max_items.

Definition crawl_musinsa (drv : Driver) (url output_file : string)
    (max_items : nat) : option Run :=
  match crawl_try (crawl_fuel max_items) drv url output_file max_items init_state with
  | None => None
  | Some (r, o, st) =>
      (* except Exception as e: print(...); traceback.print_exc() *)
      let handled : result () :=
        match r with
        | Return _ => Return ()
        | Raise _ => Return ()
        end in
      (* finally: driver.quit() *)
      let st := log EvQuit st in
      (* return products *)
      Some {| returned := handled ≫= (λ _, Return (products st));
              outcome := o;
              caught := match r with Return _ => None | Raise e => Some e end;
              final := st |}
  end.

(** ** Notions used to state the properties *)

Definition keys (ps : list Product) : list (option string) :=
  product_url <$> ps.

(** The invariant the specification asks of the collection state: no key
    twice, the seen set is exactly the keys of the collected items, and the
    counter is their number. *)
Record Inv (st : State) : Prop := {
  inv_nodup : NoDup (keys (products st));
  inv_seen : collected_urls st = list_to_set (keys (products st));
  inv_count : collected_count st = length (products st)
}.

(** What the loop gets from an item handle it examines: the link as the
    loop reads it, and the record [extract_product_info] then builds, when
    both are there and the [product_url] of the record is truthy. *)
Definition observed (item : WebElement) : option (option string * Product) :=
  match lookup_product_url item with
  | Raise _ => None
  | Return url =>
      match extract_product_info (later 1 item) with
      | Raise _ => None
      | Return product_data =>
          if truthy (product_url product_data) then Some (url, product_data)
          else None
      end
  end.

(** A handle whose link element answers the extractor as it answered the
    loop. *)
Definition link_stable (item : WebElement) : Prop :=
  find_element item 1 link_selector = find_element item 0 link_selector.

(** First-seen order: walk the observations in order and keep one when the
    link the loop read has not been seen before. *)
Fixpoint first_seen (seen : gset (option string))
    (obs : list (option string * Product)) : list (option string * Product) :=
  match obs with
  | [] => []
  | o :: rest =>
      if decide (o.1 ∈ seen) then first_seen seen rest
      else o :: first_seen ({[o.1]} ∪ seen) rest
  end.

(** The item handles of the [n]-th scan (none when the scan raised). *)
Definition scanned (drv : Driver) (n : nat) : list WebElement :=
  match driver_find_elements drv n with
  | Return items => items
  | Raise _ => []
  end.

(** All observations of scans [a], [a+1], ..., [a+n-1], in order. *)
Definition observations (drv : Driver) (a n : nat)
    : list (option string * Product) :=
  omap observed (concat (scanned drv <$> seq a n)).

(** The observations a run keeps between the loop states [st] and [st']:
    the first-seen ones of the scans made in between, as far as the target
    allows. *)
Definition kept (drv : Driver) (max_items : nat) (st st' : State)
    : list (option string * Product) :=
  take (max_items - collected_count st)
    (first_seen (collected_urls st)
       (observations drv (scan_count st) (scan_count st' - scan_count st))).

(** The state after the [for] loop of the cycle that starts in [st]. *)
Definition after_scan (drv : Driver) (max_items : nat) (st : State) : State :=
  for_items max_items (scanned drv (scan_count st))
    (set_new_items_found 0 (start_scan st)).

(** A scan contributes no new item to a state when the [for] loop over its
    handles ends with [new_items_found = 0]. *)
Definition empty_scan (max_items : nat) (items : list WebElement) (st : State)
    : Prop :=
  new_items_found (for_items max_items items (set_new_items_found 0 st)) = 0%nat.

(** A field lookup that the extractor recovers from: it returns, or it
    raises [NoSuchElementException]. *)
Definition recoverable {A} (r : result A) : Prop :=
  match r with
  | Return _ => True
  | Raise e => e = NoSuchElementException
  end.

(** The value a recoverable lookup gives to its field. *)
Definition field_value (r : result (option string)) : option string :=
  match r with
  | Return v => v
  | Raise _ => None
  end.

(** The [n]-th scroll goes through, from the scroll position [y]. *)
Definition scroll_succeeds (drv : Driver) (n : nat) (y : Z) : Prop :=
  page_y_offset drv n = Return y ∧
  (∃ h, scroll_height drv n = Return h) ∧
  scroll_to drv n (y + 2000)%Z = Return ().

(** The events of empty cycles that each end in a scroll, for the scroll
    positions [ys] the browser reported. *)
Definition scroll_events (ys : list Z) : list Event :=
  ys ≫= (λ y, [EvFindElements; EvScrollTo (y + 2000)%Z]).

(** The events the [while] loop produces: scans and scrolls. *)
Definition is_loop_event (e : Event) : bool :=
  match e with
  | EvFindElements | EvScrollTo _ => true
  | _ => false
  end.

(** The state in which the [while] loop is entered. *)
Definition entry (url : string) : State :=
  set_no_new_items_count 0 (log EvWaitUntil (log (EvGet url) init_state)).

(** The states in which a run tests the condition of the [while] loop: the
    entry state once the page is loaded and the marker found, and the state
    left by every cycle that ends in another round. *)
Inductive reached (drv : Driver) (url : string) (max_items : nat)
    : State → Prop :=
  | reached_entry :
      get drv url = Return () → wait_until drv = Return () →
      reached drv url max_items (entry url)
  | reached_cycle st st' :
      reached drv url max_items st →
      (collected_count st < max_items)%nat →
      cycle drv max_items st = (Return Continue, st') →
      reached drv url max_items st'.

(** The cycle that starts in [st] meets the fault [e]: its scan raises
    [e], or its scan is empty, the stall counter stays below the threshold,
    and one of the three scripts of the scroll raises [e]. *)
Definition cycle_fault (drv : Driver) (max_items : nat) (st : State) (e : exn)
    : Prop :=
  driver_find_elements drv (scan_count st) = Raise e ∨
  ∃ items,
    driver_find_elements drv (scan_count st) = Return items ∧
    empty_scan max_items items st ∧
    (no_new_items_count st < 9)%nat ∧
    (page_y_offset drv (scroll_count st) = Raise e ∨
     ∃ y, page_y_offset drv (scroll_count st) = Return y ∧
          (scroll_height drv (scroll_count st) = Raise e ∨
           (∃ h, scroll_height drv (scroll_count st) = Return h) ∧
           scroll_to drv (scroll_count st) (y + 2000)%Z = Raise e)).

(** The [while] loop of a run ends with [o], leaving [st']: the condition
    fails, or a cycle ends in [break]. *)
Definition loop_ended (drv : Driver) (url : string) (max_items : nat)
    (o : Outcome) (st' : State) : Prop :=
  ∃ st, reached drv url max_items st ∧
    ((max_items ≤ collected_count st)%nat ∧ o = reached_target ∧ st' = st ∨
     (collected_count st < max_items)%nat ∧
     cycle drv max_items st = (Return (Break o), st')).

(** ** Sample pages *)

(** An element with one attribute and a text. *)
Definition element_of (attr : string) (v : option string) (t : result string)
    : Element :=
  {| get_attribute := λ a, if String.eqb a attr then Return v else Return None;
     text := t |}.

(** A product card with a link, a brand, a name, price fragments and an
    image; [brand] is the answer of the brand element's [.text]. *)
Definition card (url : option string) (brand : result string) (name : string)
    (fragments : list string) (src : option string) : WebElement :=
  {| find_element := λ _ sel,
       if String.eqb sel link_selector then Return (element_of "href" url (Return ""))
       else if String.eqb sel brand_selector then Return (element_of "class" None brand)
       else if String.eqb sel name_selector then Return (element_of "class" None (Return name))
       else if String.eqb sel img_selector then Return (element_of "src" src (Return ""))
       else Raise NoSuchElementException;
     find_elements := λ _ sel,
       if String.eqb sel price_selector
       then Return ((λ t, element_of "class" None (Return t)) <$> fragments)
       else Return [] |}.

(** A card with no link element at all. *)
Definition card_without_link : WebElement :=
  {| find_element := λ _ sel, Raise NoSuchElementException;
     find_elements := λ _ sel, Return [] |}.

Definition shirt : WebElement :=
  card (Some "https://www.musinsa.com/products/1") (Return "BRAND") "Shirt"
       ["-10%"; "9,900"] (Some "https://image.msscdn.net/img.jpg?w=260").

Definition hoodie : WebElement :=
  card (Some "https://www.musinsa.com/products/2") (Return "BRAND") "Hoodie"
       ["19,900"] (Some "https://image.msscdn.net/hoodie.jpg").

(** A card whose brand element went stale between lookup and read. *)
Definition stale_card : WebElement :=
  card (Some "https://www.musinsa.com/products/3")
       (Raise StaleElementReferenceException) "Coat" ["39,000"] None.

(** A card without image element; the rest is as in [hoodie]. *)
Definition card_without_image : WebElement :=
  {| find_element := λ n sel,
       if String.eqb sel img_selector then Raise NoSuchElementException
       else find_element hoodie n sel;
     find_elements := find_elements hoodie |}.

(** A slot of the list that is re-rendered while the loop looks at it: it
    shows the shirt when the loop reads its link and the hoodie from then
    on. *)
Definition recycled_card : WebElement :=
  {| find_element := λ n sel,
       match n with
       | O => find_element shirt n sel
       | S _ => find_element hoodie n sel
       end;
     find_elements := find_elements hoodie |}.

(** A session that always shows the same [items] and scrolls without
    fault. *)
Definition static_page (items : list WebElement) : Driver :=
  {| get := λ _, Return ();
     wait_until := Return ();
     driver_find_elements := λ _, Return items;
     page_y_offset := λ n, Return (2000 * Z.of_nat n)%Z;
     scroll_height := λ _, Return 2000%Z;
     scroll_to := λ _ _, Return ();
     open_w := λ _, Return ();
     json_dump := λ _ _, Return () |}.

(** A session whose page fails to load. *)
Definition broken_session : Driver :=
  {| get := λ _, Raise WebDriverException;
     wait_until := Return ();
     driver_find_elements := λ _, Return [];
     page_y_offset := λ _, Return 0%Z;
     scroll_height := λ _, Return 0%Z;
     scroll_to := λ _ _, Return ();
     open_w := λ _, Return ();
     json_dump := λ _ _, Return () |}.

(** A session that shows two cards once and then crashes. *)
Definition crashing_session : Driver :=
  {| get := λ _, Return ();
     wait_until := Return ();
     driver_find_elements := λ n,
       match n with
       | O => Return [shirt; hoodie]
       | _ => Raise WebDriverException
       end;
     page_y_offset := λ _, Return 0%Z;
     scroll_height := λ _, Return 0%Z;
     scroll_to := λ _ _, Return ();
     open_w := λ _, Return ();
     json_dump := λ _ _, Return () |}.

(** A session like [static_page] whose window cannot be scrolled: the
    script that moves it raises. *)
Definition stuck_page (items : list WebElement) : Driver :=
  {| get := λ _, Return ();
     wait_until := Return ();
     driver_find_elements := λ _, Return items;
     page_y_offset := λ _, Return 0%Z;
     scroll_height := λ _, Return 2000%Z;
     scroll_to := λ _ _, Raise WebDriverException;
     open_w := λ _, Return ();
     json_dump := λ _ _, Return () |}.

(** A session like [static_page] on a full disk: the output file can be
    opened, writing to it fails. *)
Definition full_disk (items : list WebElement) : Driver :=
  {| get := λ _, Return ();
     wait_until := Return ();
     driver_find_elements := λ _, Return items;
     page_y_offset := λ n, Return (2000 * Z.of_nat n)%Z;
     scroll_height := λ _, Return 2000%Z;
     scroll_to := λ _ _, Return ();
     open_w := λ _, Return ();
     json_dump := λ _ _, Raise OSError |}.

(** A card whose name element is missing; the rest is as in [hoodie]. *)
Definition nameless_card : WebElement :=
  {| find_element := λ n sel,
       if String.eqb sel name_selector then Raise NoSuchElementException
       else find_element hoodie n sel;
     find_elements := find_elements hoodie |}.

(** Locals with nine items counted, the moment before the tenth. *)
Definition nine_counted : State :=
  {| products := []; collected_urls := ∅; collected_count := 9;
     scroll_count := 0; no_new_items_count := 0; new_items_found := 0;
     scan_count := 1; trace := [EvFindElements] |}.

(** ** [setup_driver] and the call of [crawl_musinsa] *)

(** What driver setup can raise, with [str(e)]: an instance of [ValueError]
    or any other [Exception] ([Exception(msg)] itself included). *)
Inductive setup_exn : Type :=
  | ValueError (msg : string)
  | OtherException (msg : string).

(** The answers of [ChromeDriverManager().install()] (the import of
    [webdriver_manager] included) and of [webdriver.Chrome(...)]. *)
Record SetupEnv : Type := {
  install : setup_exn + string;
  Chrome : string → setup_exn + Driver
}.

(** [sub in s] *)
Fixpoint str_in (sub s : string) : bool :=
  String.prefix sub s ||
  match s with
  | EmptyString => false
  | String _ s' => str_in sub s'
  end.

Definition urllib3_message : string :=
  "urllib3 버전 문제입니다.
다음 명령어를 실행하세요:
pip install urllib3==1.26.15".

Definition not_found_message : string :=
  "ChromeDriver를 찾을 수 없습니다. 위 안내를 따라주세요.".

Definition setup_driver (env : SetupEnv) : setup_exn + Driver :=
  let body :=
    match install env with
    | inl e => inl e
    | inr driver_path => Chrome env driver_path
    end in
  match body with
  | inr driver => inr driver
  | inl (ValueError msg) =>
      if str_in "Timeout value" msg
      then inl (OtherException urllib3_message)
      else inl (ValueError msg)                       (* raise *)
  | inl (OtherException _) => inl (OtherException not_found_message)
  end.

(** [crawl_musinsa(url, output_file, max_items)] as a caller sees it:
    [setup_driver()] runs first, outside the [try] block. *)
Definition crawl_musinsa_call (env : SetupEnv) (url output_file : string)
    (max_items : nat) : option (setup_exn + Run) :=
  match setup_driver env with
  | inl e => Some (inl e)
  | inr driver => inr <$> crawl_musinsa driver url output_file max_items
  end.

(** ** The script: one run per category, then the merge *)

(** What [json.load] makes of a file: the list of products [crawl_musinsa]
    dumped, another JSON value ([sized]: [len] applies to it), or nothing
    (the file cannot be opened or parsed). *)
Inductive FileData : Type :=
  | ProductsJson (data : list Product)
  | OtherJson (sized : bool)
  | NotJson.

(** The files after the events of a run: opening a file for writing
    leaves it empty, which is no JSON, until the dump has written it. *)
Definition files_after (events : list Event) (files : gmap string FileData)
    : gmap string FileData :=
  foldl (λ fs e,
           match e with
           | EvOpen output_file => <[output_file := NotJson]> fs
           | EvJsonDump output_file data => <[output_file := ProductsJson data]> fs
           | _ => fs
           end) files events.

Definition MAX_ITEMS : nat := 1000.

Definition categories : list (string * string) :=
  [ ("knit_sweater",
     "https://www.musinsa.com/category/001006?gf=M&sortCode=SALE_ONE_YEAR_COUNT");
    ("sweatshirt",
     "https://www.musinsa.com/category/001005?gf=M&sortCode=SALE_ONE_YEAR_COUNT");
    ("long_sleeve_tshirt",
     "https://www.musinsa.com/category/001010?gf=M&sortCode=SALE_ONE_YEAR_COUNT");
    ("hoodie",
     "https://www.musinsa.com/category/001004?gf=M&sortCode=SALE_ONE_YEAR_COUNT");
    ("shirt",
     "https://www.musinsa.com/category/001002?gf=M&sortCode=SALE_ONE_YEAR_COUNT");
    ("polo_tshirt",
     "https://www.musinsa.com/category/001003?gf=M&sortCode=SALE_ONE_YEAR_COUNT");
    ("short_sleeve_tshirt",
     "https://www.musinsa.com/category/001001?gf=M&sortCode=SALE_ONE_YEAR_COUNT");
    ("other_tops",
     "https://www.musinsa.com/category/001008?gf=M&sortCode=SALE_ONE_YEAR_COUNT");
    ("sleeveless_tshirt",
     "https://www.musinsa.com/category/001011?gf=M&sortCode=SALE_ONE_YEAR_COUNT");
    ("short_padding",
     "https://www.musinsa.com/category/002012?gf=M&sortCode=SALE_ONE_YEAR_COUNT");
    ("blouson",
     "https://www.musinsa.com/category/002001?gf=M&sortCode=SALE_ONE_YEAR_COUNT");
    ("safari_jacket",
     "https://www.musinsa.com/category/002014?gf=M&sortCode=SALE_ONE_YEAR_COUNT");
    ("fleece",
     "https://www.musinsa.com/category/002023?gf=M&sortCode=SALE_ONE_YEAR_COUNT");
    ("trucker_jacket",
     "https://www.musinsa.com/category/002017?gf=M&sortCode=SALE_ONE_YEAR_COUNT");
    ("coach_jacket",
     "https://www.musinsa.com/category/002006?gf=M&sortCode=SALE_ONE_YEAR_COUNT");
    ("winter_other_coat",
     "https://www.musinsa.com/category/002009?gf=M&sortCode=SALE_ONE_YEAR_COUNT");
    ("training_jacket",
     "https://www.musinsa.com/category/002018?gf=M&sortCode=SALE_ONE_YEAR_COUNT");
    ("blazer",
     "https://www.musinsa.com/category/002003?gf=M&sortCode=SALE_ONE_YEAR_COUNT");
    ("other_outer",
     "https://www.musinsa.com/category/002015?gf=M&sortCode=SALE_ONE_YEAR_COUNT");
    ("winter_double_coat",
     "https://www.musinsa.com/category/002024?gf=M&sortCode=SALE_ONE_YEAR_COUNT");
    ("winter_single_coat",
     "https://www.musinsa.com/category/002007?gf=M&sortCode=SALE_ONE_YEAR_COUNT");
    ("leather_jacket",
     "https://www.musinsa.com/category/002002?gf=M&sortCode=SALE_ONE_YEAR_COUNT");
    ("shearling",
     "https://www.musinsa.com/category/002025?gf=M&sortCode=SALE_ONE_YEAR_COUNT");
    ("spring_coat",
     "https://www.musinsa.com/category/002008?gf=M&sortCode=SALE_ONE_YEAR_COUNT");
    ("anorak",
     "https://www.musinsa.com/category/002019?gf=M&sortCode=SALE_ONE_YEAR_COUNT");
    ("padding_vest",
     "https://www.musinsa.com/category/002016?gf=M&sortCode=SALE_ONE_YEAR_COUNT");
    ("zip_up_hoodie",
     "https://www.musinsa.com/category/002022?gf=M&sortCode=SALE_ONE_YEAR_COUNT");
    ("vest",
     "https://www.musinsa.com/category/002021?gf=M&sortCode=SALE_ONE_YEAR_COUNT");
    ("long_padding",
     "https://www.musinsa.com/category/002013?gf=M&sortCode=SALE_ONE_YEAR_COUNT");
    ("stadium_jacket",
     "https://www.musinsa.com/category/002004?gf=M&sortCode=SALE_ONE_YEAR_COUNT");
    ("cardigan",
     "https://www.musinsa.com/category/002020?gf=M&sortCode=SALE_ONE_YEAR_COUNT") ].

Definition temp_file (category_key : string) : string :=
  "database/temp_" +:+ category_key +:+ ".json".

(** The body of the first loop; [envs] gives the setup answers met by the
    run of each category.  [category_names_kr] has the keys of [categories]
    and is used in messages only. *)
Definition crawl_category (envs : string → SetupEnv)
    (files : gmap string FileData) (category : string * string)
    : option (gmap string FileData) :=
  match crawl_musinsa_call (envs category.1) category.2
          (temp_file category.1) MAX_ITEMS with
  | None => None
  | Some (inl e) => Some files                         (* except: continue *)
  | Some (inr run) => Some (files_after (trace (final run)) files)
  end.

Fixpoint crawl_categories (envs : string → SetupEnv)
    (files : gmap string FileData) (cats : list (string * string))
    : option (gmap string FileData) :=
  match cats with
  | [] => Some files
  | category :: rest =>
      files' ← crawl_category envs files category;
      crawl_categories envs files' rest
  end.

(** The body of the second loop: [products_by_category[category_key]]. *)
Definition load_category (files : gmap string FileData) (category_key : string)
    : FileData :=
  match files !! temp_file category_key with
  | Some (ProductsJson data) => ProductsJson data
  | Some (OtherJson true) => OtherJson true
  | Some (OtherJson false) => ProductsJson []   (* len(products): TypeError *)
  | Some NotJson => ProductsJson []             (* open or json.load raises *)
  | None => ProductsJson []                     (* no temp file *)
  end.

(** [products_by_category] at the end of the script, in key order. *)
Definition main_with (cats : list (string * string)) (envs : string → SetupEnv)
    (files : gmap string FileData) : option (list (string * FileData)) :=
  files' ← crawl_categories envs files cats;
  Some ((λ category, (category.1, load_category files' category.1)) <$> cats).

Definition main : (string → SetupEnv) → gmap string FileData →
                  option (list (string * FileData)) :=
  main_with categories.

(** Setup answers that give the session [drv]. *)
Definition setup_ok (drv : Driver) : SetupEnv :=
  {| install := inr "/usr/bin/chromedriver"; Chrome := λ _, inr drv |}.

(** Setup answers of a machine without ChromeDriver. *)
Definition setup_broken : SetupEnv :=
  {| install := inl (OtherException "no chromedriver");
     Chrome := λ _, inr broken_session |}.

(** A product as an earlier run may have left it in a temp file. *)
Definition old_product : Product :=
  {| product_url := Some "https://www.musinsa.com/products/7";
     brand_name := Some "BRAND"; product_name := Some "Old hoodie";
     price := Some "29,000"; image_url := None |}.

Definition old_files : gmap string FileData :=
  {[ temp_file "hoodie" := ProductsJson [old_product] ]}.

Definition hoodie_url : string :=
  "https://www.musinsa.com/category/001004?gf=M&sortCode=SALE_ONE_YEAR_COUNT".

(** ** [download_images.py]: [filename_from_url] *)

(** [s.rstrip(c)] for a one-character [c]. *)
Fixpoint rstrip (c : Ascii.ascii) (s : string) : string :=
  match s with
  | EmptyString => EmptyString
  | String a s' =>
      match rstrip c s' with
      | EmptyString => if Ascii.eqb a c then EmptyString else String a EmptyString
      | rest => String a rest
      end
  end.

(** [s.split(c)] for a one-character separator: never the empty list. *)
Fixpoint split (c : Ascii.ascii) (s : string) : list string :=
  match s with
  | EmptyString => [EmptyString]
  | String a s' =>
      if Ascii.eqb a c then EmptyString :: split c s'
      else match split c s' with
           | piece :: pieces => String a piece :: pieces
           | [] => [String a EmptyString]
           end
  end.

(** [url.rstrip("/").split("/")[-1].split("?")[0]] *)
Definition filename_from_url (url : string) : string :=
  default "" (head (split "?" (default "" (last (split "/" (rstrip "/" url)))))).

(** ** [add_indices.py] and [iter_images]: the database as JSON *)

(** A JSON value as the two scripts look at it.  [JOther] stands for a
    boolean, a float, a list or an object, with what [int(v)] gives when it
    returns. *)
Inductive jvalue : Type :=
  | JNull
  | JInt (z : Z)
  | JStr (s : string)
  | JOther (as_int : option Z).

(** An element of a category list: an object, or any other JSON value. *)
Inductive jitem : Type :=
  | IDict (fields : gmap string jvalue)
  | INotDict.

(** The value of a category key: a list, or any other JSON value. *)
Inductive jcategory : Type :=
  | CList (items : list jitem)
  | CNotList.

(** [item["index"] = idx] when [item] is an object. *)
Definition set_index (idx : nat) (item : jitem) : jitem :=
  match item with
  | IDict fields => IDict (<["index" := JInt (Z.of_nat idx)]> fields)
  | INotDict => INotDict
  end.

(** [for idx, item in enumerate(value, start=idx)] *)
Fixpoint index_from (idx : nat) (value : list jitem) : list jitem :=
  match value with
  | [] => []
  | item :: rest => set_index idx item :: index_from (S idx) rest
  end.

(** The data [add_indices.main] writes back. *)
Definition add_indices (data : list (string * jcategory))
    : list (string * jcategory) :=
  (λ kv, (kv.1, match kv.2 with
                | CList value => CList (index_from 1 value)
                | CNotList => CNotList
                end)) <$> data.

Definition is_dict (item : jitem) : bool :=
  match item with
  | IDict _ => true
  | INotDict => false
  end.

(** The counter [changed] that [add_indices.main] prints. *)
Fixpoint changed (data : list (string * jcategory)) : nat :=
  match data with
  | [] => 0
  | (_, CList value) :: rest => length (filter (λ item, is_dict item = true) value) + changed rest
  | (_, CNotList) :: rest => changed rest
  end.

Section Images.

(** [int(s)] on a string, when it returns. *)
Variable int_of_str : string → option Z.

(** [int(v)], when it returns. *)
Definition py_int (v : jvalue) : option Z :=
  match v with
  | JNull => None
  | JInt z => Some z
  | JStr s => int_of_str s
  | JOther as_int => as_int
  end.

(** What [iter_images] yields for the object [it] at position [pos]. *)
Definition image_of (pos : nat) (it : gmap string jvalue) : option (Z * string) :=
  match it !! "image_url" with
  | Some (JStr url) =>
      if String.eqb url "" then None
      else
        let idx :=
          match it !! "index" with
          | None => Z.of_nat pos
          | Some v => default (Z.of_nat pos) (py_int v)
          end in
        Some (idx, url)
  | _ => None
  end.

(** The inner loop of [iter_images] from position [pos]: what is yielded,
    and whether the loop ended in [AttributeError] on an element without
    [get]. *)
Fixpoint images_of_items (category : string) (pos : nat) (items : list jitem)
    : list (string * Z * string) * bool :=
  match items with
  | [] => ([], false)
  | INotDict :: _ => ([], true)
  | IDict it :: rest =>
      let '(more, crashed) := images_of_items category (S pos) rest in
      (match image_of pos it with
       | Some (idx, url) => (category, idx, url) :: more
       | None => more
       end, crashed)
  end.

Fixpoint iter_images (db : list (string * jcategory))
    : list (string * Z * string) * bool :=
  match db with
  | [] => ([], false)
  | (category, CNotList) :: rest => iter_images rest
  | (category, CList items) :: rest =>
      let '(here, crashed) := images_of_items category 1 items in
      if crashed then (here, true)
      else let '(more, crashed') := iter_images rest in (here ++ more, crashed')
  end.

End Images.

(** A database without [index] fields (specification side). *)
Definition delete_index (item : jitem) : jitem :=
  match item with
  | IDict fields => IDict (delete "index" fields)
  | INotDict => INotDict
  end.

Definition without_index (data : list (string * jcategory))
    : list (string * jcategory) :=
  (λ kv, (kv.1, match kv.2 with
                | CList value => CList (delete_index <$> value)
                | CNotList => CNotList
                end)) <$> data.

(** A product as [json.dump] writes it and [json.load] reads it back. *)
Definition json_of_field (v : option string) : jvalue :=
  match v with
  | Some s => JStr s
  | None => JNull
  end.

Definition json_of_product (p : Product) : jitem :=
  IDict (<["product_url" := json_of_field (product_url p)]>
         (<["brand_name" := json_of_field (brand_name p)]>
          (<["product_name" := json_of_field (product_name p)]>
           (<["price" := json_of_field (price p)]>
            (<["image_url" := json_of_field (image_url p)]> ∅))))).

Definition json_of_db (db : list (string * list Product))
    : list (string * jcategory) :=
  (λ kv, (kv.1, CList (json_of_product <$> kv.2))) <$> db.

(** The images of the products of one category, from position [pos]
    (specification side). *)
Fixpoint product_images (category : string) (pos : nat) (ps : list Product)
    : list (string * Z * string) :=
  match ps with
  | [] => []
  | p :: rest =>
      match image_url p with
      | Some url =>
          if String.eqb url "" then product_images category (S pos) rest
          else (category, Z.of_nat pos, url) :: product_images category (S pos) rest
      | None => product_images category (S pos) rest
      end
  end.

(** The images of a database of products, category by category
    (specification side). *)
Definition db_images (db : list (string * list Product))
    : list (string * Z * string) :=
  concat ((λ kv, product_images kv.1 1 kv.2) <$> db).

(** A small database with old [index] values that clash. *)
Definition clashing_db : list (string * jcategory) :=
  [ ("hoodie",
     CList [ IDict (<["image_url" := JStr "https://image.msscdn.net/a.jpg"]>
                    (<["index" := JInt 7]> ∅));
             IDict (<["image_url" := JStr "https://image.msscdn.net/b.jpg"]>
                    (<["index" := JInt 7]> ∅)) ]);
    ("shirt",
     CList [ IDict (<["image_url" := JStr "https://image.msscdn.net/c.jpg"]> ∅) ]) ].

(** * Properties *)

(** ** Field extraction *)

Section Extraction.

Lemma except_NoSuchElement_Raise {A} (r : result A) (d : A) (e : exn) :
  except_NoSuchElement r d = Raise e →
  r = Raise e ∧ e ≠ NoSuchElementException.
Proof.
  destruct r as [a|[]]; simpl; intros H; inversion H; subst; auto.
Qed.

Lemma except_NoSuchElement_recoverable (r : result (option string)) :
  recoverable r → except_NoSuchElement r None = Return (field_value r).
Proof.
  destruct r as [a|e]; simpl; [done|]. by intros ->.
Qed.

(** An exception other than [NoSuchElementException] passes the handler. *)
Lemma except_NoSuchElement_other {A} (d : A) (e : exn) :
  e ≠ NoSuchElementException → except_NoSuchElement (Raise e) d = Raise e.
Proof. by destruct e. Qed.

(** A returned record holds, field by field, what the five guarded
    lookups gave. *)
Lemma extract_product_info_Return (item : WebElement) (p : Product) :
  extract_product_info item = Return p →
  except_NoSuchElement (lookup_product_url item) None = Return (product_url p) ∧
  except_NoSuchElement (lookup_brand_name item) None = Return (brand_name p) ∧
  except_NoSuchElement (lookup_product_name item) None = Return (product_name p) ∧
  except_NoSuchElement (lookup_price item) None = Return (price p) ∧
  except_NoSuchElement (lookup_image_url item) None = Return (image_url p).
Proof.
  unfold extract_product_info.
  destruct (except_NoSuchElement (lookup_product_url item) None); [|done].
  destruct (except_NoSuchElement (lookup_brand_name item) None); [|done].
  destruct (except_NoSuchElement (lookup_product_name item) None); [|done].
  destruct (except_NoSuchElement (lookup_price item) None); [|done].
  destruct (except_NoSuchElement (lookup_image_url item) None); [|done].
  simpl. intros [= <-]. done.
Qed.

(** The first four fields resolved, the record is there as soon as the
    image is. *)
Lemma extract_product_info_image (item : WebElement) (v : option string) :
  recoverable (lookup_product_url item) →
  recoverable (lookup_brand_name item) →
  recoverable (lookup_product_name item) →
  recoverable (lookup_price item) →
  except_NoSuchElement (lookup_image_url item) None = Return v →
  extract_product_info item
  = Return {| product_url := field_value (lookup_product_url item);
              brand_name := field_value (lookup_brand_name item);
              product_name := field_value (lookup_product_name item);
              price := field_value (lookup_price item);
              image_url := v |}.
Proof.
  intros H1 H2 H3 H4 H5. unfold extract_product_info.
  rewrite (except_NoSuchElement_recoverable _ H1),
    (except_NoSuchElement_recoverable _ H2),
    (except_NoSuchElement_recoverable _ H3),
    (except_NoSuchElement_recoverable _ H4), H5.
  reflexivity.
Qed.

(** The link the extractor reads on the handle one query later is the
    link the loop read, when the link element answers both alike. *)
Lemma lookup_product_url_later (item : WebElement) :
  link_stable item →
  lookup_product_url (later 1 item) = lookup_product_url item.
Proof. unfold link_stable, lookup_product_url. simpl. by intros ->. Qed.

(** The link of a record is the link the extractor read. *)
Lemma extract_product_info_url (item : WebElement) (p : Product) :
  extract_product_info item = Return p →
  product_url p = field_value (lookup_product_url item).
Proof.
  intros Hp. apply extract_product_info_Return in Hp as (Hu & _).
  destruct (lookup_product_url item) as [v|[]]; simpl in *; congruence.
Qed.

Lemma split_head_app (a b : string) :
  str_contains "?" a = false →
  split_head "?" (String.append a (String "?" b)) = a.
Proof.
  induction a as [|c a IH]; simpl; [done|].
  destruct (Ascii.eqb c "?"); [done|]. intros H. by rewrite IH.
Qed.

Lemma str_contains_app (a b : string) :
  str_contains "?" (String.append a (String "?" b)) = true.
Proof.
  induction a as [|c a IH]; simpl; [done|]. by destruct (Ascii.eqb c "?").
Qed.

Lemma strip_query_no_mark (s : string) :
  str_contains "?" s = false → strip_query (Some s) = Some s.
Proof. unfold strip_query. intros ->. by rewrite andb_false_r. Qed.

Lemma strip_query_mark (a b : string) :
  str_contains "?" a = false →
  strip_query (Some (String.append a (String "?" b))) = Some a.
Proof.
  intros Ha. unfold strip_query.
  rewrite str_contains_app, split_head_app by done.
  destruct a; simpl; done.
Qed.

Lemma lookup_image_url_found (item : WebElement) (img : Element)
    (v : option string) :
  find_element item 4 img_selector = Return img →
  get_attribute img "src" = Return v →
  lookup_image_url item = Return (strip_query v).
Proof.
  unfold lookup_image_url. intros Hf Hs.
  rewrite Hf. simpl. by rewrite Hs.
Qed.

End Extraction.

(** C6. Price tie-break: in the record extracted from an item, the price is
    the text of the second price fragment when the item has two or more
    fragments, the text of the only fragment when it has exactly one, and
    null when it has none.  The fragments are the answer to the price query
    of the extraction, its fourth query on the item. *)
Theorem price_tie_break (item : WebElement) (p : Product) (els : list Element) :
  extract_product_info item = Return p →
  find_elements item 3 price_selector = Return els →
  (length els = 0%nat → price p = None) ∧
  (∀ e s, els = [e] → text e = Return s → price p = Some s) ∧
  (∀ e0 e1 rest s, els = e0 :: e1 :: rest → text e1 = Return s →
     price p = Some s).
Proof.
  intros Hp Hels.
  apply extract_product_info_Return in Hp as (_ & _ & _ & Hprice & _).
  unfold lookup_price in Hprice. rewrite Hels in Hprice. simpl in Hprice.
  split; [|split].
  - intros Hlen. destruct els; [|done]. simpl in Hprice. by inversion Hprice.
  - intros e s -> Ht. simpl in Hprice. unfold index in Hprice. simpl in Hprice.
    rewrite Ht in Hprice. simpl in Hprice. by inversion Hprice.
  - intros e0 e1 rest s -> Ht.
    destruct (decide (2 ≤ length (e0 :: e1 :: rest))%nat) as [_|Hn];
      [|simpl in Hn; lia].
    unfold index in Hprice. simpl in Hprice.
    rewrite Ht in Hprice. simpl in Hprice. by inversion Hprice.
Qed.

Lemma price_tie_break_witness :
  ∃ p, extract_product_info shirt = Return p ∧
       find_elements shirt 3 price_selector
         = Return [element_of "class" None (Return "-10%");
                   element_of "class" None (Return "9,900")] ∧
       price p = Some "9,900".
Proof.
  eexists. split; [reflexivity|]. split; [reflexivity|].
  eapply (proj2 (proj2 (price_tie_break shirt _ _ eq_refl eq_refl)));
    reflexivity.
Defined.

(** C9. Image normalisation.  The fifth [try] block of
    [extract_product_info] yields null when the image element is missing or
    its [src] is null, the [src] unchanged when it holds no question mark,
    and the [src] cut at its first question mark otherwise.  What the block
    yields is the [image_url] of the record; and the record is there
    whenever the four fields before the image are resolved, a missing image
    never being in the way. *)
Theorem image_url_normalised (item : WebElement) :
  (find_element item 4 img_selector = Raise NoSuchElementException →
     except_NoSuchElement (lookup_image_url item) None = Return None) ∧
  (∀ img, find_element item 4 img_selector = Return img →
     (get_attribute img "src" = Return None →
        except_NoSuchElement (lookup_image_url item) None = Return None) ∧
     (∀ s, get_attribute img "src" = Return (Some s) →
        (str_contains "?" s = false →
           except_NoSuchElement (lookup_image_url item) None = Return (Some s)) ∧
        (∀ a b, s = String.append a (String "?" b) →
           str_contains "?" a = false →
           except_NoSuchElement (lookup_image_url item) None
           = Return (Some a)))) ∧
  (∀ p, extract_product_info item = Return p →
     except_NoSuchElement (lookup_image_url item) None = Return (image_url p)) ∧
  (∀ v, except_NoSuchElement (lookup_image_url item) None = Return v →
     recoverable (lookup_product_url item) →
     recoverable (lookup_brand_name item) →
     recoverable (lookup_product_name item) →
     recoverable (lookup_price item) →
     ∃ p, extract_product_info item = Return p ∧ image_url p = v).
Proof.
  split_and!.
  - intros Hf. unfold lookup_image_url. by rewrite Hf.
  - intros img Hf. split.
    + intros Hs. by rewrite (lookup_image_url_found _ _ _ Hf Hs).
    + intros s Hs. rewrite (lookup_image_url_found _ _ _ Hf Hs).
      cbn [except_NoSuchElement]. split.
      * intros Hq. by rewrite strip_query_no_mark.
      * intros a b -> Ha. by rewrite strip_query_mark.
  - intros p Hp. by apply extract_product_info_Return in Hp as (_ & _ & _ & _ & Himg).
  - intros v Hv H1 H2 H3 H4. eexists.
    split; [by apply extract_product_info_image|done].
Qed.

Lemma image_url_normalised_witness :
  (∃ p, extract_product_info card_without_image = Return p ∧ image_url p = None) ∧
  (∃ p, extract_product_info shirt = Return p ∧
        image_url p = Some "https://image.msscdn.net/img.jpg").
Proof.
  split.
  - apply (proj2 (proj2 (proj2 (image_url_normalised card_without_image)))).
    + apply (proj1 (image_url_normalised card_without_image)). reflexivity.
    + exact I.
    + exact I.
    + exact I.
    + exact I.
  - apply (proj2 (proj2 (proj2 (image_url_normalised shirt)))).
    + destruct (proj1 (proj2 (image_url_normalised shirt)) _ eq_refl) as [_ H].
      destruct (H _ eq_refl) as [_ H'].
      exact (H' "https://image.msscdn.net/img.jpg" "w=260" eq_refl eq_refl).
    + exact I.
    + exact I.
    + exact I.
    + exact I.
Defined.

(** ** One item, one scan *)

Section Scan.

Implicit Types (st : State) (item : WebElement) (items : list WebElement).

(** What the [for] body does to the state, in one equation: the link the
    loop read decides whether the item is new, and is what the set
    remembers. *)
Lemma item_step_spec item st :
  item_step item st =
    match observed item with
    | Some (url, p) =>
        if decide (url ∈ collected_urls st) then st
        else add_product p url st
    | None => st
    end.
Proof.
  unfold item_step, item_try, observed.
  destruct (lookup_product_url item) as [url|e] eqn:Hl; [|done].
  destruct (extract_product_info (later 1 item)) as [p|e] eqn:Hp.
  - destruct (truthy (product_url p));
      destruct (decide (url ∈ collected_urls st)); try done.
    destruct (decide _); [|done]. by destruct (product_name p).
  - by destruct (decide (url ∈ collected_urls st)).
Qed.

(** An item step is a skip or an append. *)
Lemma item_step_cases item st :
  item_step item st = st ∨
  ∃ url p, observed item = Some (url, p) ∧ (url ∉ collected_urls st) ∧
           item_step item st = add_product p url st.
Proof.
  rewrite item_step_spec. destruct (observed item) as [[url p]|]; [|by left].
  destruct (decide _); [by left|]. right. by exists url, p.
Qed.

Lemma observed_Some item (url : option string) (p : Product) :
  observed item = Some (url, p) ↔
  lookup_product_url item = Return url ∧
  extract_product_info (later 1 item) = Return p ∧
  truthy (product_url p) = true.
Proof.
  unfold observed. split.
  - destruct (lookup_product_url item) as [u|]; [|done].
    destruct (extract_product_info (later 1 item)) as [q|]; [|done].
    destruct (truthy (product_url q)) eqn:Ht; [|done].
    by intros [= <- <-].
  - intros (-> & -> & ->). done.
Qed.

(** On a handle whose link element answers twice alike, the link of the
    record is the link the loop read. *)
Lemma observed_stable item (url : option string) (p : Product) :
  link_stable item → observed item = Some (url, p) → product_url p = url.
Proof.
  intros Hs (Hl & Hp & _)%observed_Some.
  rewrite (extract_product_info_url _ _ Hp), (lookup_product_url_later _ Hs), Hl.
  done.
Qed.

(** The loop only ever appends. *)
Lemma item_step_prefix item st :
  products st `prefix_of` products (item_step item st).
Proof.
  destruct (item_step_cases item st) as [->|(url & p & _ & _ & ->)]; [done|].
  simpl. by apply prefix_app_r.
Qed.

Lemma for_items_prefix max_items items st :
  products st `prefix_of` products (for_items max_items items st).
Proof.
  revert st. induction items as [|item items IH]; intros st; simpl; [done|].
  destruct (decide _); [done|].
  etrans; [apply item_step_prefix|apply IH].
Qed.

(** Fields the [for] loop never writes. *)
Lemma item_step_frame item st :
  scroll_count (item_step item st) = scroll_count st ∧
  no_new_items_count (item_step item st) = no_new_items_count st ∧
  scan_count (item_step item st) = scan_count st ∧
  trace (item_step item st) = trace st.
Proof.
  destruct (item_step_cases item st) as [->|(url & p & _ & _ & ->)]; done.
Qed.

Lemma for_items_frame max_items items st :
  scroll_count (for_items max_items items st) = scroll_count st ∧
  no_new_items_count (for_items max_items items st) = no_new_items_count st ∧
  scan_count (for_items max_items items st) = scan_count st ∧
  trace (for_items max_items items st) = trace st.
Proof.
  revert st. induction items as [|item items IH]; intros st; simpl; [done|].
  destruct (decide _); [done|].
  destruct (IH (item_step item st)) as (-> & -> & -> & ->).
  apply item_step_frame.
Qed.

(** The two counters move together. *)
Lemma for_items_counters max_items items st :
  (collected_count (for_items max_items items st) + new_items_found st
   = collected_count st + new_items_found (for_items max_items items st))%nat
  ∧ (collected_count st ≤ collected_count (for_items max_items items st))%nat.
Proof.
  revert st. induction items as [|item items IH]; intros st; simpl; [lia|].
  destruct (decide _); [lia|].
  destruct (IH (item_step item st)) as [H1 H2].
  destruct (item_step_cases item st) as [E|(url & p & _ & _ & E)];
    rewrite E in *; simpl in *; lia.
Qed.

Lemma for_items_bound max_items items st :
  (collected_count st ≤ max_items)%nat →
  (collected_count (for_items max_items items st) ≤ max_items)%nat.
Proof.
  revert st. induction items as [|item items IH]; intros st Hst; simpl; [done|].
  destruct (decide _); [done|]. apply IH.
  destruct (item_step_cases item st) as [->|(url & p & _ & _ & ->)]; simpl; lia.
Qed.

(** A scan that counted no new item left the state as it was. *)
Lemma for_items_no_new max_items items st :
  new_items_found (for_items max_items items st) = new_items_found st →
  for_items max_items items st = st.
Proof.
  revert st. induction items as [|item items IH]; intros st; simpl; [done|].
  destruct (decide _); [done|]. intros Hn.
  destruct (item_step_cases item st) as [E|(url & p & _ & _ & E)].
  - rewrite E in *. by apply IH.
  - exfalso. pose proof (for_items_counters max_items items (item_step item st)) as [H1 H2].
    rewrite E in *. simpl in *. lia.
Qed.

(** The outcome of a scan depends on the seen set and the counter only. *)
Lemma for_items_agree max_items items st1 st2 :
  collected_urls st1 = collected_urls st2 →
  collected_count st1 = collected_count st2 →
  (new_items_found (for_items max_items items st1) + new_items_found st2
   = new_items_found (for_items max_items items st2) + new_items_found st1)%nat.
Proof.
  revert st1 st2.
  induction items as [|item items IH]; intros st1 st2 Hu Hc; simpl; [lia|].
  rewrite Hc. destruct (decide _); [lia|].
  rewrite !item_step_spec. destruct (observed item) as [[url p]|]; [|by apply IH].
  rewrite Hu. destruct (decide _); [by apply IH|].
  specialize (IH (add_product p url st1) (add_product p url st2)).
  simpl in IH. rewrite Hu, Hc in IH. specialize (IH eq_refl eq_refl). lia.
Qed.

Lemma empty_scan_agree max_items items st1 st2 :
  collected_urls st1 = collected_urls st2 →
  collected_count st1 = collected_count st2 →
  empty_scan max_items items st1 → empty_scan max_items items st2.
Proof.
  unfold empty_scan. intros Hu Hc H1.
  pose proof (for_items_agree max_items items (set_new_items_found 0 st1)
                (set_new_items_found 0 st2) Hu Hc) as H.
  simpl in H. lia.
Qed.

Lemma for_items_skip max_items item (rest : list WebElement) st :
  item_step item st = st →
  for_items max_items (item :: rest) st = for_items max_items rest st.
Proof.
  intros Hstep. simpl. rewrite Hstep. destruct (decide _) as [Hfull|]; [|done].
  destruct rest; simpl; [done|]. by destruct (decide _).
Qed.

End Scan.

(** ** First-seen order of one scan *)

Section FirstSeen.

Implicit Types (st : State) (seen : gset (option string)).
Implicit Types (obs : list (option string * Product)).

Lemma first_seen_app seen obs1 obs2 :
  first_seen seen (obs1 ++ obs2)
  = first_seen seen obs1
    ++ first_seen (list_to_set (first_seen seen obs1).*1 ∪ seen) obs2.
Proof.
  revert seen. induction obs1 as [|o obs1 IH]; intros seen; simpl.
  - by rewrite (left_id_L ∅ (∪)).
  - destruct (decide _); [apply IH|].
    simpl. rewrite IH. do 2 f_equal.
    by rewrite (assoc_L (∪)), (comm_L (∪) _ {[o.1]}).
Qed.

Lemma first_seen_subseteq seen obs : first_seen seen obs ⊆ obs.
Proof.
  revert seen. induction obs as [|o obs IH]; intros seen; simpl; [done|].
  destruct (decide _).
  - intros q Hq. apply elem_of_cons. right. by apply (IH seen).
  - intros q [->|Hq]%elem_of_cons; apply elem_of_cons; [by left|right].
    by apply (IH ({[o.1]} ∪ seen)).
Qed.

(** No link is kept twice, and none that was seen before. *)
Lemma first_seen_NoDup seen obs :
  NoDup (first_seen seen obs).*1 ∧
  ∀ url, url ∈ (first_seen seen obs).*1 → url ∉ seen.
Proof.
  revert seen. induction obs as [|o obs IH]; intros seen; simpl.
  - split; [apply NoDup_nil_2|]. intros url Hin. by apply not_elem_of_nil in Hin.
  - destruct (decide _) as [Hin|Hnew]; [apply IH|].
    destruct (IH ({[o.1]} ∪ seen)) as [Hnd Hfresh]. simpl. split.
    + apply NoDup_cons. split; [|done]. intros Hin.
      apply (Hfresh _ Hin). apply elem_of_union_l. by apply elem_of_singleton.
    + intros url [->|Hin]%elem_of_cons; [done|].
      intros Hs. apply (Hfresh _ Hin). by apply elem_of_union_r.
Qed.

Lemma omap_observed_cons (item : WebElement) (items : list WebElement) :
  omap observed (item :: items)
  = match observed item with
    | Some o => o :: omap observed items
    | None => omap observed items
    end.
Proof. reflexivity. Qed.

Lemma take_short {A} (n : nat) (l : list A) :
  length (take n l) < n → take n l = l.
Proof. rewrite length_take. intros H. apply take_ge. lia. Qed.

(** One scan appends the records of the first-seen observations of its
    handles, as far as the target allows, and remembers their links. *)
Lemma for_items_kept max_items (items : list WebElement) st :
  products (for_items max_items items st)
  = products st
    ++ (take (max_items - collected_count st)
          (first_seen (collected_urls st) (omap observed items))).*2 ∧
  collected_urls (for_items max_items items st)
  = list_to_set
      (take (max_items - collected_count st)
         (first_seen (collected_urls st) (omap observed items))).*1
    ∪ collected_urls st ∧
  collected_count (for_items max_items items st)
  = collected_count st
    + length (take (max_items - collected_count st)
                (first_seen (collected_urls st) (omap observed items))).
Proof.
  revert st. induction items as [|item items IH]; intros st.
  - simpl. rewrite take_nil. simpl.
    by rewrite app_nil_r, (left_id_L ∅ (∪)), Nat.add_0_r.
  - cbn [for_items].
    destruct (decide (max_items ≤ collected_count st)%nat) as [Hfull|Hroom].
    + replace (max_items - collected_count st) with 0 by lia. simpl.
      by rewrite app_nil_r, (left_id_L ∅ (∪)), Nat.add_0_r.
    + destruct (IH (item_step item st)) as (Hp & Hu & Hc).
      rewrite Hp, Hu, Hc. clear Hp Hu Hc.
      rewrite item_step_spec, omap_observed_cons.
      destruct (observed item) as [[url p]|]; [|done].
      cbn [first_seen fst].
      destruct (decide (url ∈ collected_urls st)) as [Hseen|Hnew]; [done|].
      cbn [add_product products collected_urls collected_count].
      replace (max_items - collected_count st)
        with (S (max_items - (collected_count st + 1))) by lia.
      cbn [take fmap list_fmap length fst snd list_to_set foldr].
      split_and!.
      * by rewrite <- app_assoc.
      * rewrite (assoc_L (∪)). f_equal. by rewrite (comm_L (∪)).
      * lia.
Qed.

End FirstSeen.

(** C7. An item without link is skipped: when the loop finds no link
    element, or the extractor finds none or finds one without [href], the
    step leaves the whole state as it was, so the item is not appended, not
    recorded as seen and not counted as new, and the loop goes on with the
    remaining items of the scan.  The loop's query is the first on the
    handle, the extractor's the second. *)
Theorem item_without_link_skipped (item : WebElement) (st : State)
    (max_items : nat) (rest : list WebElement) :
  (find_element item 0 link_selector = Raise NoSuchElementException ∨
   find_element item 1 link_selector = Raise NoSuchElementException ∨
   ∃ link_element, find_element item 1 link_selector = Return link_element ∧
                   get_attribute link_element "href" = Return None) →
  item_step item st = st ∧
  products (item_step item st) = products st ∧
  collected_urls (item_step item st) = collected_urls st ∧
  new_items_found (item_step item st) = new_items_found st ∧
  for_items max_items (item :: rest) st = for_items max_items rest st.
Proof.
  intros Habsent.
  assert (observed item = None) as Hobs.
  { destruct (observed item) as [[url p]|] eqn:Ho; [|done]. exfalso.
    apply observed_Some in Ho as (Hl & Hp & Ht).
    apply extract_product_info_url in Hp.
    unfold lookup_product_url in Hl, Hp. simpl in Hp.
    destruct Habsent as [H0|[H1|(link & H1 & Hattr)]].
    - by rewrite H0 in Hl.
    - rewrite H1 in Hp. simpl in Hp. by rewrite Hp in Ht.
    - rewrite H1 in Hp. simpl in Hp. rewrite Hattr in Hp. simpl in Hp.
      by rewrite Hp in Ht. }
  assert (item_step item st = st) as Hstep.
  { by rewrite item_step_spec, Hobs. }
  rewrite Hstep. repeat split; try done.
  by apply for_items_skip.
Qed.

Lemma item_without_link_skipped_witness :
  find_element card_without_link 0 link_selector = Raise NoSuchElementException ∧
  for_items 50 [card_without_link; shirt] init_state
  = for_items 50 [shirt] init_state.
Proof.
  split; [reflexivity|].
  apply (item_without_link_skipped card_without_link init_state 50 [shirt]).
  left. reflexivity.
Defined.

(** C8, as the specification states it, fails: a field lookup that fails
    with something else than [NoSuchElementException] is not caught inside
    [extract_product_info].  The brand of [stale_card] raises
    [StaleElementReferenceException]; the exception leaves the extractor, and
    the name, price and image of that card are never resolved. *)
Lemma field_fault_propagates :
  lookup_brand_name stale_card = Raise StaleElementReferenceException ∧
  extract_product_info stale_card = Raise StaleElementReferenceException ∧
  ¬ ∃ p, extract_product_info stale_card = Return p.
Proof.
  split; [reflexivity|]. split; [reflexivity|].
  intros [p Hp]. vm_compute in Hp. discriminate Hp.
Qed.

(** C8, amended.  A field whose lookup finds no element
    ([NoSuchElementException]) is null and the other fields are resolved
    each from its own lookup.  Any other exception of a field lookup leaves
    [extract_product_info]: the first lookup that raises one ends the
    extraction with it, and an extraction only ever raises what one of its
    lookups raised.  The scan loop then skips that one item and goes on
    with the remaining items of the scan. *)
Theorem missing_fields_are_local (item : WebElement) :
  (recoverable (lookup_product_url item) →
   recoverable (lookup_brand_name item) →
   recoverable (lookup_product_name item) →
   recoverable (lookup_price item) →
   recoverable (lookup_image_url item) →
   extract_product_info item
   = Return {| product_url := field_value (lookup_product_url item);
               brand_name := field_value (lookup_brand_name item);
               product_name := field_value (lookup_product_name item);
               price := field_value (lookup_price item);
               image_url := field_value (lookup_image_url item) |}) ∧
  (∀ e, e ≠ NoSuchElementException →
     (lookup_product_url item = Raise e →
        extract_product_info item = Raise e) ∧
     (recoverable (lookup_product_url item) →
      lookup_brand_name item = Raise e →
        extract_product_info item = Raise e) ∧
     (recoverable (lookup_product_url item) →
      recoverable (lookup_brand_name item) →
      lookup_product_name item = Raise e →
        extract_product_info item = Raise e) ∧
     (recoverable (lookup_product_url item) →
      recoverable (lookup_brand_name item) →
      recoverable (lookup_product_name item) →
      lookup_price item = Raise e →
        extract_product_info item = Raise e) ∧
     (recoverable (lookup_product_url item) →
      recoverable (lookup_brand_name item) →
      recoverable (lookup_product_name item) →
      recoverable (lookup_price item) →
      lookup_image_url item = Raise e →
        extract_product_info item = Raise e)) ∧
  (∀ e, extract_product_info item = Raise e →
     e ≠ NoSuchElementException ∧
     (lookup_product_url item = Raise e ∨ lookup_brand_name item = Raise e ∨
      lookup_product_name item = Raise e ∨ lookup_price item = Raise e ∨
      lookup_image_url item = Raise e)) ∧
  (∀ e st max_items rest, extract_product_info (later 1 item) = Raise e →
     item_step item st = st ∧
     for_items max_items (item :: rest) st = for_items max_items rest st).
Proof.
  split_and!.
  - intros H1 H2 H3 H4 H5. apply extract_product_info_image; try done.
    by apply except_NoSuchElement_recoverable.
  - intros e He. unfold extract_product_info. split_and!.
    + intros ->. by rewrite except_NoSuchElement_other.
    + intros H1 ->.
      rewrite (except_NoSuchElement_recoverable _ H1).
      by rewrite except_NoSuchElement_other.
    + intros H1 H2 ->.
      rewrite (except_NoSuchElement_recoverable _ H1),
        (except_NoSuchElement_recoverable _ H2).
      by rewrite except_NoSuchElement_other.
    + intros H1 H2 H3 ->.
      rewrite (except_NoSuchElement_recoverable _ H1),
        (except_NoSuchElement_recoverable _ H2),
        (except_NoSuchElement_recoverable _ H3).
      by rewrite except_NoSuchElement_other.
    + intros H1 H2 H3 H4 ->.
      rewrite (except_NoSuchElement_recoverable _ H1),
        (except_NoSuchElement_recoverable _ H2),
        (except_NoSuchElement_recoverable _ H3),
        (except_NoSuchElement_recoverable _ H4).
      by rewrite except_NoSuchElement_other.
  - intros e. unfold extract_product_info.
    destruct (except_NoSuchElement (lookup_product_url item) None) eqn:E1;
      [|simpl; intros [= ->]; apply except_NoSuchElement_Raise in E1; tauto].
    destruct (except_NoSuchElement (lookup_brand_name item) None) eqn:E2;
      [|simpl; intros [= ->]; apply except_NoSuchElement_Raise in E2; tauto].
    destruct (except_NoSuchElement (lookup_product_name item) None) eqn:E3;
      [|simpl; intros [= ->]; apply except_NoSuchElement_Raise in E3; tauto].
    destruct (except_NoSuchElement (lookup_price item) None) eqn:E4;
      [|simpl; intros [= ->]; apply except_NoSuchElement_Raise in E4; tauto].
    destruct (except_NoSuchElement (lookup_image_url item) None) eqn:E5;
      [|simpl; intros [= ->]; apply except_NoSuchElement_Raise in E5; tauto].
    done.
  - intros e st max_items rest He.
    assert (item_step item st = st) as Hstep.
    { rewrite item_step_spec. unfold observed. rewrite He.
      by destruct (lookup_product_url item). }
    split; [done|]. by apply for_items_skip.
Qed.

Lemma missing_fields_are_local_witness :
  extract_product_info card_without_link
  = Return {| product_url := None; brand_name := None; product_name := None;
              price := None; image_url := None |}
  ∧ extract_product_info stale_card = Raise StaleElementReferenceException
  ∧ for_items 50 [stale_card; shirt] init_state
    = for_items 50 [shirt] init_state.
Proof.
  split_and!.
  - apply (proj1 (missing_fields_are_local card_without_link));
      reflexivity.
  - apply (proj1 (proj2 (proj1 (proj2 (missing_fields_are_local stale_card))
                           StaleElementReferenceException
                           ltac:(discriminate)))).
    + exact I.
    + reflexivity.
  - eapply (proj2 (proj2 (proj2 (missing_fields_are_local stale_card)))).
    reflexivity.
Defined.

(** ** One cycle of the [while] loop *)

Section Cycle.

Context (drv : Driver) (max_items : nat).
Implicit Types (st : State).
Local Abbreviation after_scan := (after_scan drv max_items).

Lemma scroll_spec st r st' :
  scroll drv st = (r, st') →
  products st' = products st ∧ collected_urls st' = collected_urls st ∧
  collected_count st' = collected_count st ∧
  no_new_items_count st' = no_new_items_count st ∧
  scan_count st' = scan_count st ∧
  r ≠ Return (Break reached_target) ∧ r ≠ Return (Break exhausted) ∧
  (trace st' = trace st ∨ ∃ y, trace st' = trace st ++ [EvScrollTo y]).
Proof.
  unfold scroll.
  destruct (page_y_offset drv (scroll_count st)) as [y|];
    [|intros [= <- <-]; naive_solver].
  destruct (scroll_height drv (scroll_count st)) as [h|];
    [|intros [= <- <-]; naive_solver].
  simpl. destruct (scroll_to drv (scroll_count st) (y + 2000)) as [u|];
    intros [= <- <-]; simpl; naive_solver.
Qed.

Lemma evaluate_spec st r st' :
  evaluate drv max_items st = (r, st') →
  products st' = products st ∧ collected_urls st' = collected_urls st ∧
  collected_count st' = collected_count st ∧
  scan_count st' = scan_count st ∧
  (trace st' = trace st ∨ ∃ y, trace st' = trace st ++ [EvScrollTo y]) ∧
  match r with
  | Return (Break reached_target) =>
      0 < new_items_found st ∧ max_items ≤ collected_count st
  | Return (Break exhausted) =>
      new_items_found st = 0 ∧ 10 ≤ S (no_new_items_count st) ∧
      trace st' = trace st
  | Return Continue =>
      (0 < new_items_found st ∧ collected_count st < max_items ∧
       no_new_items_count st' = 0) ∨
      (new_items_found st = 0 ∧ no_new_items_count st' = S (no_new_items_count st) ∧
       no_new_items_count st' < 10)
  | Raise _ => new_items_found st = 0
  end.
Proof.
  unfold evaluate. destruct (decide (0 < new_items_found st)) as [Hnew|Hnone].
  - simpl. destruct (decide _); intros [= <- <-]; simpl;
      repeat split; auto; left; repeat split; auto; lia.
  - simpl. destruct (decide _) as [Hstall|Hgo].
    + intros [= <- <-]; simpl. repeat split; auto; lia.
    + intros Hs. apply scroll_spec in Hs as (-> & -> & -> & Hn & -> & H1 & H2 & Ht).
      simpl in *. repeat split; auto.
      destruct r as [[|[]]|]; try done; [|lia].
      right. rewrite Hn. repeat split; lia.
Qed.

Lemma after_scan_frame st :
  scan_count (after_scan st) = S (scan_count st) ∧
  trace (after_scan st) = trace st ++ [EvFindElements] ∧
  no_new_items_count (after_scan st) = no_new_items_count st ∧
  scroll_count (after_scan st) = scroll_count st.
Proof.
  unfold after_scan.
  destruct (for_items_frame max_items (scanned drv (scan_count st))
              (set_new_items_found 0 (start_scan st))) as (-> & -> & -> & ->).
  done.
Qed.

Lemma after_scan_counters st :
  collected_count (after_scan st)
  = collected_count st + new_items_found (after_scan st).
Proof.
  unfold after_scan.
  destruct (for_items_counters max_items (scanned drv (scan_count st))
              (set_new_items_found 0 (start_scan st))) as [H _].
  simpl in H. lia.
Qed.

(** Everything a cycle does, by the way it ends. *)
Lemma cycle_spec st r st' :
  cycle drv max_items st = (r, st') →
  products st' = products (after_scan st) ∧
  collected_urls st' = collected_urls (after_scan st) ∧
  collected_count st' = collected_count (after_scan st) ∧
  scan_count st' = S (scan_count st) ∧
  (trace st' = trace st ++ [EvFindElements] ∨
   ∃ y, trace st' = trace st ++ [EvFindElements; EvScrollTo y]) ∧
  match r with
  | Return (Break reached_target) => max_items ≤ collected_count st'
  | Return (Break exhausted) =>
      collected_count st' = collected_count st ∧
      trace st' = trace st ++ [EvFindElements]
  | Return Continue =>
      (collected_count st < collected_count st' ∧
       collected_count st' < max_items ∧ no_new_items_count st' = 0) ∨
      (collected_count st' = collected_count st ∧
       no_new_items_count st' = S (no_new_items_count st) ∧
       no_new_items_count st' < 10)
  | Raise _ => collected_count st' = collected_count st
  end.
Proof.
  unfold cycle. pose proof (after_scan_frame st) as (Hsc & Htr & Hnn & _).
  pose proof (after_scan_counters st) as Hcnt.
  unfold after_scan, scanned in *.
  destruct (driver_find_elements drv (scan_count st)) as [items|e].
  - intros He. apply evaluate_spec in He as (-> & -> & -> & -> & Ht & Hr).
    rewrite Htr, Hnn in *. repeat split; auto.
    + destruct Ht as [->|[y ->]]; [by left|right; exists y].
      by rewrite <- app_assoc.
    + destruct r as [[|[]]|].
      * destruct Hr as [(? & ? & ?)|(? & ? & ?)]; [left|right]; lia.
      * lia.
      * destruct Hr as (? & ? & ->). split; [lia|done].
      * lia.
  - intros [= <- <-]. simpl in *. repeat split; auto.
Qed.

End Cycle.

(** ** The [while] loop *)

Section Loop.

Context (drv : Driver) (max_items : nat).
Implicit Types (st : State).

Lemma after_scan_bound st :
  collected_count st ≤ max_items →
  collected_count (after_scan drv max_items st) ≤ max_items.
Proof. intros Hle. by apply for_items_bound. Qed.

Lemma observations_S (a n : nat) :
  observations drv a (S n)
  = omap observed (scanned drv a) ++ observations drv (S a) n.
Proof. unfold observations. simpl. by rewrite omap_app. Qed.

Lemma observations_1 (a : nat) :
  observations drv a 1 = omap observed (scanned drv a).
Proof. unfold observations. simpl. by rewrite app_nil_r. Qed.

(** What one scan keeps. *)
Lemma after_scan_kept st :
  products (after_scan drv max_items st)
  = products st
    ++ (take (max_items - collected_count st)
          (first_seen (collected_urls st) (observations drv (scan_count st) 1))).*2 ∧
  collected_urls (after_scan drv max_items st)
  = list_to_set
      (take (max_items - collected_count st)
         (first_seen (collected_urls st) (observations drv (scan_count st) 1))).*1
    ∪ collected_urls st ∧
  collected_count (after_scan drv max_items st)
  = collected_count st
    + length (take (max_items - collected_count st)
                (first_seen (collected_urls st)
                   (observations drv (scan_count st) 1))).
Proof.
  rewrite observations_1. unfold after_scan.
  apply (for_items_kept max_items (scanned drv (scan_count st))
           (set_new_items_found 0 (start_scan st))).
Qed.

(** A scan that leaves room for more kept all its first-seen
    observations, and the scans after it add to them. *)
Lemma kept_continue st st1 st' :
  scan_count st1 = S (scan_count st) →
  scan_count st1 ≤ scan_count st' →
  collected_urls st1
  = list_to_set
      (take (max_items - collected_count st)
         (first_seen (collected_urls st) (observations drv (scan_count st) 1))).*1
    ∪ collected_urls st →
  collected_count st1
  = collected_count st
    + length (take (max_items - collected_count st)
                (first_seen (collected_urls st)
                   (observations drv (scan_count st) 1))) →
  collected_count st1 < max_items →
  kept drv max_items st st'
  = take (max_items - collected_count st)
      (first_seen (collected_urls st) (observations drv (scan_count st) 1))
    ++ kept drv max_items st1 st'.
Proof.
  intros Hs Hle Hu Hc Hroom. unfold kept.
  assert (take (max_items - collected_count st)
            (first_seen (collected_urls st) (observations drv (scan_count st) 1))
          = first_seen (collected_urls st) (observations drv (scan_count st) 1))
    as Hall by (apply take_short; lia).
  rewrite Hall in Hu, Hc |- *.
  replace (scan_count st' - scan_count st)
    with (S (scan_count st' - scan_count st1)) by lia.
  rewrite observations_S, <- observations_1, first_seen_app, take_app, Hs.
  rewrite Hall, Hu. do 2 f_equal. lia.
Qed.

(** The loop ends within the fuel [crawl_musinsa] gives it. *)
Lemma while_loop_terminates (fuel : nat) st :
  no_new_items_count st < 10 →
  10 * (max_items - collected_count st) ≤ fuel + no_new_items_count st →
  ∃ r st', while_loop fuel drv max_items st = Some (r, st').
Proof.
  revert st. induction fuel as [|fuel IH]; intros st Hstall Hfuel; simpl.
  - destruct (decide _); [lia|eauto].
  - destruct (decide _) as [Hroom|]; [|eauto].
    destruct (cycle drv max_items st) as [r st1] eqn:Hc.
    apply cycle_spec in Hc as (_ & _ & _ & _ & _ & Hr).
    destruct r as [[|o]|e]; [|eauto..].
    apply IH; destruct Hr as [(? & ? & ?)|(? & ? & ?)]; lia.
Qed.

(** More fuel does not change what the loop gives. *)
Lemma while_loop_fuel (fuel fuel' : nat) st (r : result Outcome * State) :
  while_loop fuel drv max_items st = Some r → fuel ≤ fuel' →
  while_loop fuel' drv max_items st = Some r.
Proof.
  revert fuel' st. induction fuel as [|fuel IH]; intros fuel' st; simpl.
  - destruct (decide _) as [|Hfull]; [done|]. intros [= <-] _.
    destruct fuel'; simpl; by destruct (decide _).
  - destruct (decide _) as [Hroom|Hfull].
    + destruct fuel' as [|fuel']; [lia|]. simpl.
      destruct (decide _); [|done].
      destruct (cycle drv max_items st) as [[[|o]|e] st1]; [|done..].
      intros Hw Hle. apply IH; [done|lia].
    + intros [= <-] _. destruct fuel'; simpl; by destruct (decide _).
Qed.

Lemma kept_same st : kept drv max_items st st = [].
Proof.
  unfold kept. rewrite Nat.sub_diag. unfold observations. simpl.
  by rewrite take_nil.
Qed.

(** What holds when the loop has ended, whatever the way. *)
Lemma while_loop_spec (fuel : nat) st r st' :
  collected_count st ≤ max_items →
  while_loop fuel drv max_items st = Some (r, st') →
  collected_count st' ≤ max_items ∧
  scan_count st ≤ scan_count st' ∧
  products st' = products st ++ (kept drv max_items st st').*2 ∧
  collected_urls st'
  = list_to_set (kept drv max_items st st').*1 ∪ collected_urls st ∧
  collected_count st' = collected_count st + length (kept drv max_items st st') ∧
  match r with
  | Return reached_target => collected_count st' = max_items
  | _ => collected_count st' < max_items
  end ∧
  ∃ evs, trace st' = trace st ++ evs ∧ forallb is_loop_event evs = true.
Proof.
  assert (∀ st, collected_count st ≤ max_items →
            ¬ collected_count st < max_items →
            collected_count st ≤ max_items ∧
            scan_count st ≤ scan_count st ∧
            products st = products st ++ (kept drv max_items st st).*2 ∧
            collected_urls st
            = list_to_set (kept drv max_items st st).*1 ∪ collected_urls st ∧
            collected_count st
            = collected_count st + length (kept drv max_items st st) ∧
            collected_count st = max_items ∧
            ∃ evs, trace st = trace st ++ evs ∧ forallb is_loop_event evs = true)
    as Hstop.
  { intros s Hle Hfull. rewrite kept_same. simpl.
    rewrite app_nil_r, (left_id_L ∅ (∪)). split_and!; try done; try lia.
    exists []. by rewrite app_nil_r. }
  revert st. induction fuel as [|fuel IH]; intros st Hle; simpl.
  - destruct (decide _) as [Hroom|Hfull]; [done|]. intros [= <- <-].
    by apply Hstop.
  - destruct (decide _) as [Hroom|Hfull];
      [|intros [= <- <-]; by apply Hstop].
    destruct (cycle drv max_items st) as [r1 st1] eqn:Hc.
    apply cycle_spec in Hc as (Hp & Hu & Hn & Hs & Ht & Hr).
    pose proof (after_scan_bound st Hle) as Hle1.
    destruct (after_scan_kept st) as (Hp1 & Hu1 & Hn1).
    rewrite <- Hp in Hp1. rewrite <- Hu in Hu1. rewrite <- Hn in Hn1, Hle1.
    assert (∃ evs, trace st1 = trace st ++ evs ∧ forallb is_loop_event evs = true)
      as (evs1 & Hevs1 & Hloop1).
    { destruct Ht as [->|[y ->]]; eexists; (split; [done|done]). }
    assert (kept drv max_items st st1
            = take (max_items - collected_count st)
                (first_seen (collected_urls st)
                   (observations drv (scan_count st) 1))) as Hk1.
    { unfold kept. rewrite Hs. by replace (S (scan_count st) - scan_count st) with 1 by lia. }
    destruct r1 as [[|o]|e].
    + (* the loop goes on *)
      intros Hw.
      apply IH in Hw as (Hle' & Hsc' & Hp' & Hu' & Hn' & Hr' & evs & Hevs & Hloop);
        [|done].
      assert (collected_count st1 < max_items) as Hroom1.
      { destruct Hr as [(? & ? & ?)|(? & ? & ?)]; lia. }
      rewrite (kept_continue st st1 st' Hs Hsc' Hu1 Hn1 Hroom1).
      rewrite !fmap_app, list_to_set_app_L, length_app.
      split_and!; try done; try lia.
      * by rewrite Hp', Hp1, <- app_assoc.
      * rewrite Hu', Hu1. by rewrite (assoc_L (∪)), (comm_L (∪) (list_to_set _)).
      * exists (evs1 ++ evs). rewrite Hevs, Hevs1, app_assoc. split; [done|].
        rewrite forallb_app. by rewrite Hloop1, Hloop.
    + (* break *)
      intros [= <- <-]. rewrite Hk1.
      split_and!; try done; try lia; [|eauto].
      destruct o; lia.
    + (* a fault *)
      intros [= <- <-]. rewrite Hk1.
      split_and!; try done; try lia. eauto.
Qed.

End Loop.

(** ** Stalls *)

Section Stall.

Context (drv : Driver) (max_items : nat).
Implicit Types (st : State).

(** A cycle whose scan is empty goes straight to the evaluation. *)
Lemma cycle_empty st (items : list WebElement) :
  driver_find_elements drv (scan_count st) = Return items →
  empty_scan max_items items st →
  cycle drv max_items st
  = evaluate drv max_items (set_new_items_found 0 (start_scan st)).
Proof.
  intros Hscan Hempty. unfold cycle. rewrite Hscan. f_equal.
  apply for_items_no_new. simpl.
  by apply (empty_scan_agree max_items items st (start_scan st)).
Qed.

Lemma cycle_stall_counter st (items : list WebElement) r st' :
  driver_find_elements drv (scan_count st) = Return items →
  cycle drv max_items st = (r, st') →
  (¬ empty_scan max_items items (start_scan st) → no_new_items_count st' = 0) ∧
  (empty_scan max_items items (start_scan st) →
     no_new_items_count st' = S (no_new_items_count st)).
Proof.
  intros Hscan. unfold cycle, empty_scan. rewrite Hscan.
  pose proof (for_items_frame max_items items
                (set_new_items_found 0 (start_scan st))) as (_ & Hnn & _ & _).
  simpl in Hnn.
  set (st1 := for_items max_items items (set_new_items_found 0 (start_scan st))) in *.
  unfold evaluate.
  destruct (decide (0 < new_items_found st1)) as [Hnew|Hnone].
  - simpl. destruct (decide _); intros [= <- <-]; simpl; split; auto; lia.
  - simpl. destruct (decide _).
    + intros [= <- <-]. simpl. split; [lia|]. intros _. lia.
    + intros Hs. apply scroll_spec in Hs as (_ & _ & _ & -> & _).
      simpl. split; [lia|]. intros _. lia.
Qed.

(** From a state that has counted [9 - length ys] empty scans in a row:
    [length ys] more empty scans, each followed by a scroll, and one last
    empty scan end the loop. *)
Lemma stall_run (ys : list Z) :
  ∀ st (fuel : nat),
    collected_count st < max_items →
    no_new_items_count st + length ys = 9 →
    length ys < fuel →
    (∀ i, i ≤ length ys →
       ∃ items, driver_find_elements drv (scan_count st + i) = Return items ∧
                empty_scan max_items items st) →
    (∀ j y, ys !! j = Some y → scroll_succeeds drv (scroll_count st + j) y) →
    ∃ st', while_loop fuel drv max_items st = Some (Return exhausted, st') ∧
      products st' = products st ∧
      no_new_items_count st' = 10 ∧
      scan_count st' = scan_count st + S (length ys) ∧
      scroll_count st' = scroll_count st + length ys ∧
      trace st' = trace st ++ scroll_events ys ++ [EvFindElements].
Proof.
  induction ys as [|y ys IH]; intros st fuel Hroom Hstall Hfuel Hscans Hscrolls;
    (destruct fuel as [|fuel]; [simpl in Hfuel; lia|]);
    destruct (Hscans 0) as (items & Hscan & Hempty); try lia;
    rewrite Nat.add_0_r in Hscan;
    simpl; (destruct (decide _) as [_|]; [|lia]);
    rewrite (cycle_empty st items Hscan Hempty); unfold evaluate; simpl;
    (destruct (decide (0 < 0)); [lia|]).
  - simpl in Hstall. destruct (decide _) as [_|]; [|lia].
    eexists. split; [reflexivity|]. simpl. split_and!; try done; lia.
  - simpl in Hstall. destruct (decide _) as [|_]; [lia|].
    destruct (Hscrolls 0 y eq_refl) as (Hy & [h Hh] & Hto).
    rewrite Nat.add_0_r in Hy, Hh, Hto.
    unfold scroll. simpl. rewrite Hy, Hh. simpl. rewrite Hto.
    match goal with
    | |- ∃ _, while_loop _ _ _ ?s = _ ∧ _ => set (st1 := s)
    end.
    destruct (IH st1 fuel) as (st' & Hw & Hp & Hn & Hsc & Hsr & Ht);
      subst st1; simpl in *; try lia.
    + intros i Hi. destruct (Hscans (S i)) as (its & Hits & He); [lia|].
      exists its. split; [by rewrite <- Hits, Nat.add_succ_r|].
      by apply (empty_scan_agree max_items its st).
    + intros j y' Hj. specialize (Hscrolls (S j) y' Hj).
      by replace (scroll_count st + 1 + j) with (scroll_count st + S j) by lia.
    + exists st'. split; [done|]. split_and!; try done; try lia.
      rewrite Ht. by rewrite <- !app_assoc.
Qed.

(** A crashed scan is the last scan. *)
Lemma while_loop_scan_fault (fuel : nat) st r st' (n : nat) (e : exn) :
  while_loop fuel drv max_items st = Some (r, st') →
  scan_count st ≤ n → driver_find_elements drv n = Raise e →
  scan_count st' ≤ S n.
Proof.
  revert st. induction fuel as [|fuel IH]; intros st; simpl.
  - destruct (decide _); [done|]. intros [= <- <-]. lia.
  - destruct (decide _); [|intros [= <- <-]; lia].
    destruct (decide (scan_count st = n)) as [<-|Hne].
    + intros Hw _ He. unfold cycle in Hw. rewrite He in Hw.
      inversion Hw; subst. simpl. lia.
    + destruct (cycle drv max_items st) as [r1 st1] eqn:Hc.
      apply cycle_spec in Hc as (_ & _ & _ & Hs & _).
      destruct r1 as [[|o]|e1].
      * intros Hw Hle He. apply (IH st1); [done|lia|done].
      * intros [= <- <-] Hle _. lia.
      * intros [= <- <-] Hle _. lia.
Qed.

End Stall.

(** ** A whole call *)

Section Run.

Context (drv : Driver) (url output_file : string) (max_items : nat).
Implicit Types (st : State).

Local Ltac early_fault :=
  first [ done | lia | by rewrite take_nil
        | by (exists []; split; [done|left])
        | by (exists []; split; [done|right; left])
        | by intros ? [= ->] | by intros ? _ [= ->] ].

(** Every call returns, and this is what it leaves. *)
Lemma crawl_musinsa_run :
  ∃ run, crawl_musinsa drv url output_file max_items = Some run ∧
    returned run = Return (products (final run)) ∧
    collected_count (final run) ≤ max_items ∧
    products (final run)
    = (take max_items
         (first_seen ∅ (observations drv 0 (scan_count (final run))))).*2 ∧
    collected_urls (final run)
    = list_to_set
        (take max_items
           (first_seen ∅ (observations drv 0 (scan_count (final run))))).*1 ∧
    collected_count (final run) = length (products (final run)) ∧
    match outcome run with
    | Some reached_target => collected_count (final run) = max_items
    | Some exhausted => collected_count (final run) < max_items
    | None => caught run ≠ None ∧
              (0 < max_items → collected_count (final run) < max_items)
    end ∧
    (∃ loop_events, forallb is_loop_event loop_events = true ∧
       match caught run with
       | Some _ =>
           trace (final run) = [EvGet url] ++ loop_events ++ [EvQuit] ∨
           trace (final run)
           = [EvGet url; EvWaitUntil] ++ loop_events ++ [EvQuit] ∨
           trace (final run)
           = [EvGet url; EvWaitUntil] ++ loop_events
             ++ [EvOpen output_file; EvQuit]
       | None =>
           trace (final run)
           = [EvGet url; EvWaitUntil] ++ loop_events
             ++ [EvOpen output_file;
                 EvJsonDump output_file (products (final run)); EvQuit]
       end) ∧
    (∀ e, get drv url = Raise e →
          caught run = Some e ∧
          final run = log EvQuit (log (EvGet url) init_state)) ∧
    (∀ e, get drv url = Return () → wait_until drv = Raise e →
          caught run = Some e ∧
          final run
          = log EvQuit (log EvWaitUntil (log (EvGet url) init_state))) ∧
    (∀ n e, driver_find_elements drv n = Raise e →
            scan_count (final run) ≤ S n).
Proof.
  unfold crawl_musinsa, crawl_try.
  destruct (get drv url) as [[]|e] eqn:Hget.
  2:{ eexists. split; [reflexivity|]. simpl.
      split_and!; early_fault. }
  destruct (wait_until drv) as [[]|e] eqn:Hwait.
  2:{ eexists. split; [reflexivity|]. simpl.
      split_and!; early_fault. }
  fold (entry url).
  destruct (while_loop_terminates drv max_items (crawl_fuel max_items) (entry url))
    as (r & st & Hw); [simpl; lia|unfold crawl_fuel; simpl; lia|].
  rewrite Hw.
  pose proof (λ n e, while_loop_scan_fault _ _ _ _ _ _ n e Hw (Nat.le_0_l n))
    as Hcrash.
  apply while_loop_spec in Hw
      as (Hle & Hsc & Hprod & Hurls & Hcnt & Hr & evs & Hevs & Hloop);
    [|simpl; lia].
  unfold kept in Hprod, Hurls, Hcnt. simpl in Hprod, Hurls, Hcnt, Hevs.
  rewrite !Nat.sub_0_r in Hprod, Hurls, Hcnt.
  rewrite (right_id_L ∅ (∪)) in Hurls.
  assert (collected_count st = length (products st)) as Hlen
    by (by rewrite Hcnt, Hprod, length_fmap).
  destruct r as [o|e];
    [destruct (open_w drv output_file) as [[]|e];
       [destruct (json_dump drv output_file (products (log (EvOpen output_file) st)))
          as [[]|e]|]|];
    (eexists; split; [reflexivity|]; simpl; split_and!;
     first [ done
           | by (exists evs; split; [done|];
                 rewrite Hevs; simpl; rewrite <- ?app_assoc)
           | by (exists evs; split; [done|]; left; rewrite Hevs)
           | by (exists evs; split; [done|]; right; left; rewrite Hevs;
                 simpl; rewrite <- ?app_assoc)
           | by (exists evs; split; [done|]; right; right; rewrite Hevs;
                 simpl; rewrite <- ?app_assoc) ]).
Qed.

(** How a finished call came about: the page did not load, the wait
    failed, or the loop ran from the entry state. *)
Lemma crawl_musinsa_final (run : Run) :
  crawl_musinsa drv url output_file max_items = Some run →
  final run = log EvQuit (log (EvGet url) init_state) ∨
  final run = log EvQuit (log EvWaitUntil (log (EvGet url) init_state)) ∨
  ∃ r st,
    while_loop (crawl_fuel max_items) drv max_items (entry url) = Some (r, st) ∧
    (final run = log EvQuit st ∨
     final run = log EvQuit (log (EvOpen output_file) st) ∨
     final run
     = log EvQuit (log (EvJsonDump output_file (products st))
                     (log (EvOpen output_file) st))).
Proof.
  unfold crawl_musinsa, crawl_try.
  destruct (get drv url); [|intros [= <-]; by left].
  destruct (wait_until drv); [|intros [= <-]; right; by left].
  fold (entry url).
  destruct (while_loop _ _ _ _) as [[[o|e] st]|]; [| |done].
  - destruct (open_w drv output_file);
      [destruct (json_dump drv output_file _)|];
      intros [= <-]; right; right; exists (Return o), st; (split; [done|]);
      [right; by right|right; by left|by left].
  - intros [= <-]. right; right. exists (Raise e), st. split; [done|by left].
Qed.

End Run.

(** ** Faults, by the state in which they strike *)

Section Faults.

Context (drv : Driver) (url output_file : string) (max_items : nat).
Implicit Types (st : State).

Lemma reached_loaded st :
  reached drv url max_items st →
  get drv url = Return () ∧ wait_until drv = Return ().
Proof. induction 1; done. Qed.

Lemma reached_while_loop st :
  reached drv url max_items st →
  ∀ (fuel : nat) (r : result Outcome * State),
    while_loop fuel drv max_items st = Some r →
    ∃ fuel', while_loop fuel' drv max_items (entry url) = Some r.
Proof.
  induction 1 as [|st st' _ IH Hroom Hc]; intros fuel r Hw; [eauto|].
  apply (IH (S fuel)). simpl. destruct (decide _); [|done]. by rewrite Hc.
Qed.

(** What the loop gives from a reached state is what the run's loop
    gives. *)
Lemma reached_result st (fuel : nat) (r : result Outcome * State) :
  reached drv url max_items st →
  while_loop fuel drv max_items st = Some r →
  while_loop (crawl_fuel max_items) drv max_items (entry url) = Some r.
Proof.
  intros Hst Hw.
  destruct (reached_while_loop st Hst fuel r Hw) as (fuel' & Hw').
  destruct (while_loop_terminates drv max_items (crawl_fuel max_items) (entry url))
    as (r0 & st0 & Hw0); [simpl; lia|unfold crawl_fuel; simpl; lia|].
  pose proof (while_loop_fuel drv max_items _ (fuel' + crawl_fuel max_items) _ _
                Hw' ltac:(lia)) as H1.
  pose proof (while_loop_fuel drv max_items _ (fuel' + crawl_fuel max_items) _ _
                Hw0 ltac:(lia)) as H2.
  congruence.
Qed.

(** Every run's loop ends in a reached state: by a fault of the cycle
    entered there, or as [loop_ended] says. *)
Lemma while_loop_reached (fuel : nat) st (r : result Outcome) st' :
  reached drv url max_items st →
  while_loop fuel drv max_items st = Some (r, st') →
  match r with
  | Raise e =>
      ∃ st0, reached drv url max_items st0 ∧ collected_count st0 < max_items ∧
             cycle drv max_items st0 = (Raise e, st')
  | Return o => loop_ended drv url max_items o st'
  end.
Proof.
  revert st. induction fuel as [|fuel IH]; intros st Hst; simpl.
  - destruct (decide _) as [|Hfull]; [done|]. intros [= <- <-].
    exists st. split; [done|]. left. split_and!; [lia|done..].
  - destruct (decide _) as [Hroom|Hfull].
    + destruct (cycle drv max_items st) as [[[|o]|e] st1] eqn:Hc.
      * apply IH. by eapply reached_cycle.
      * intros [= <- <-]. exists st. split; [done|]. by right.
      * intros [= <- <-]. by exists st.
    + intros [= <- <-]. exists st. split; [done|]. left. split_and!; [lia|done..].
Qed.

(** A cycle that meets a fault ends with it; nothing was collected, and
    the scan, or the scan and the scroll, are its only events. *)
Lemma cycle_fault_spec st (e : exn) :
  cycle_fault drv max_items st e →
  ∃ st', cycle drv max_items st = (Raise e, st') ∧
         products st' = products st ∧
         collected_urls st' = collected_urls st ∧
         (trace st' = trace st ++ [EvFindElements] ∨
          ∃ y, page_y_offset drv (scroll_count st) = Return y ∧
               scroll_to drv (scroll_count st) (y + 2000)%Z = Raise e ∧
               trace st' = trace st ++ [EvFindElements; EvScrollTo (y + 2000)%Z]).
Proof.
  intros [Hscan|(items & Hscan & Hempty & Hstall & Hscroll)].
  - unfold cycle. rewrite Hscan. eexists. split; [done|]. simpl. auto.
  - rewrite (cycle_empty drv max_items st items Hscan Hempty).
    unfold evaluate. simpl. destruct (decide (0 < 0)) as [|_]; [lia|].
    destruct (decide _) as [|_]; [lia|]. unfold scroll. simpl.
    destruct Hscroll as [Hy|(y & Hy & [Hh|[[h Hh] Hto]])]; rewrite Hy.
    + eexists. split; [done|]. simpl. auto.
    + rewrite Hh. eexists. split; [done|]. simpl. auto.
    + rewrite Hh. simpl. rewrite Hto. eexists. split; [done|]. simpl.
      split_and!; [done..|]. right. exists y. split_and!; [done..|].
      by rewrite <- app_assoc.
Qed.

(** A fault in a cycle ends the call: the exception is caught, the list
    collected so far is returned, and quitting the driver is all that
    follows. *)
Lemma crawl_musinsa_cycle_raises st (e : exn) st' :
  reached drv url max_items st → collected_count st < max_items →
  cycle drv max_items st = (Raise e, st') →
  crawl_musinsa drv url output_file max_items
  = Some {| returned := Return (products st'); outcome := None;
            caught := Some e; final := log EvQuit st' |}.
Proof.
  intros Hst Hroom Hc.
  destruct (reached_loaded st Hst) as [Hget Hwait].
  assert (while_loop 1 drv max_items st = Some (Raise e, st')) as Hw.
  { simpl. destruct (decide _); [|done]. by rewrite Hc. }
  apply (reached_result st 1 _ Hst) in Hw.
  unfold crawl_musinsa, crawl_try. rewrite Hget, Hwait. fold (entry url).
  by rewrite Hw.
Qed.

(** When the loop has ended, the call goes on to the output file. *)
Lemma crawl_musinsa_loop_ended (o : Outcome) st :
  loop_ended drv url max_items o st →
  crawl_musinsa drv url output_file max_items
  = Some match open_w drv output_file with
         | Raise e =>
             {| returned := Return (products st); outcome := Some o;
                caught := Some e; final := log EvQuit st |}
         | Return _ =>
             match json_dump drv output_file (products st) with
             | Raise e =>
                 {| returned := Return (products st); outcome := Some o;
                    caught := Some e;
                    final := log EvQuit (log (EvOpen output_file) st) |}
             | Return _ =>
                 {| returned := Return (products st); outcome := Some o;
                    caught := None;
                    final := log EvQuit
                               (log (EvJsonDump output_file (products st))
                                  (log (EvOpen output_file) st)) |}
             end
         end.
Proof.
  intros (st0 & Hst & Hend).
  destruct (reached_loaded st0 Hst) as [Hget Hwait].
  assert (while_loop 1 drv max_items st0 = Some (Return o, st)) as Hw.
  { simpl. destruct Hend as [(Hfull & -> & ->)|[Hroom Hc]].
    - destruct (decide _); [lia|done].
    - destruct (decide _); [|done]. by rewrite Hc. }
  apply (reached_result st0 1 _ Hst) in Hw.
  unfold crawl_musinsa, crawl_try. rewrite Hget, Hwait. fold (entry url).
  rewrite Hw. destruct (open_w drv output_file) as [[]|e]; [|done].
  simpl. by destruct (json_dump drv output_file (products st)) as [[]|e].
Qed.

End Faults.

(** ** The files a call leaves *)

Section Files.

Context (drv : Driver) (url output_file : string) (max_items : nat).
Implicit Types (st : State) (files : gmap string FileData).

Lemma files_after_app (evs1 evs2 : list Event) files :
  files_after (evs1 ++ evs2) files = files_after evs2 (files_after evs1 files).
Proof. unfold files_after. by rewrite foldl_app. Qed.

Lemma files_after_loop_events (evs : list Event) files :
  forallb is_loop_event evs = true → files_after evs files = files.
Proof.
  revert files. induction evs as [|e evs IH]; intros files; simpl; [done|].
  intros [He Hevs]%andb_true_iff. destruct e; try done; by apply IH.
Qed.

Lemma loop_events_exclude (e : Event) (evs : list Event) :
  is_loop_event e = false → forallb is_loop_event evs = true → e ∉ evs.
Proof.
  intros He Hall Hin. apply list_elem_of_In in Hin.
  rewrite forallb_forall in Hall. specialize (Hall e Hin). congruence.
Qed.

(** Up to a reached state the run has loaded the page, waited, scanned
    and scrolled, and nothing else. *)
Lemma reached_trace st :
  reached drv url max_items st →
  ∃ evs, trace st = [EvGet url; EvWaitUntil] ++ evs ∧
         forallb is_loop_event evs = true.
Proof.
  induction 1 as [|st st' _ (evs & Hevs & Hloop) _ Hc]; [by exists []|].
  apply cycle_spec in Hc as (_ & _ & _ & _ & Ht & _).
  destruct Ht as [->|[y ->]]; rewrite Hevs, <- app_assoc; eexists;
    (split; [done|]); rewrite forallb_app, Hloop; done.
Qed.

Lemma reached_files st files :
  reached drv url max_items st → files_after (trace st) files = files.
Proof.
  intros (evs & -> & Hloop)%reached_trace.
  by rewrite files_after_app, files_after_loop_events.
Qed.

Lemma cycle_files st (r : result Flow) st' files :
  cycle drv max_items st = (r, st') →
  files_after (trace st') files = files_after (trace st) files.
Proof.
  intros Hc. apply cycle_spec in Hc as (_ & _ & _ & _ & Ht & _).
  destruct Ht as [->|[y ->]]; by rewrite files_after_app.
Qed.

Lemma loop_ended_files (o : Outcome) st files :
  loop_ended drv url max_items o st → files_after (trace st) files = files.
Proof.
  intros (st0 & Hst & [(_ & _ & ->)|[_ Hc]]); [by apply reached_files|].
  rewrite (cycle_files _ _ _ _ Hc). by apply reached_files.
Qed.

(** The files after a run, by the way its [try] block ended. *)
Lemma files_after_run (run : Run) files :
  crawl_musinsa drv url output_file max_items = Some run →
  files_after (trace (final run)) files
  = match caught run with
    | None => <[output_file := ProductsJson (products (final run))]> files
    | Some _ =>
        if bool_decide (EvOpen output_file ∈ trace (final run))
        then <[output_file := NotJson]> files
        else files
    end.
Proof.
  intros Hrun.
  destruct (crawl_musinsa_run drv url output_file max_items)
    as (run' & Hrun' & _ & _ & _ & _ & _ & _ & (evs & Hloop & Ht) & _).
  rewrite Hrun in Hrun'. injection Hrun' as <-.
  pose proof (loop_events_exclude (EvOpen output_file) evs eq_refl Hloop) as Hno.
  destruct (caught run); [destruct Ht as [Ht|[Ht|Ht]]|]; rewrite Ht.
  - rewrite bool_decide_eq_false_2.
    + by rewrite !files_after_app, (files_after_loop_events evs).
    + intros [H|[H|H]%elem_of_app]%elem_of_app; [|done|].
      * by apply list_elem_of_singleton in H.
      * by apply list_elem_of_singleton in H.
  - rewrite bool_decide_eq_false_2.
    + by rewrite !files_after_app, (files_after_loop_events evs).
    + intros [H|[H|H]%elem_of_app]%elem_of_app; [|done|].
      * apply elem_of_cons in H as [H|H]; [done|].
        by apply list_elem_of_singleton in H.
      * by apply list_elem_of_singleton in H.
  - rewrite bool_decide_eq_true_2.
    + by rewrite !files_after_app, (files_after_loop_events evs).
    + apply elem_of_app. right. apply elem_of_app. right.
      apply elem_of_cons. by left.
  - rewrite !files_after_app, (files_after_loop_events evs) by done.
    simpl. by rewrite insert_insert_eq.
Qed.

End Files.

(** ** The collection loop: properties of every run *)

Lemma cycle_prefix (drv : Driver) (max_items : nat) (st : State)
    (r : result Flow) (st' : State) :
  cycle drv max_items st = (r, st') → products st `prefix_of` products st'.
Proof.
  intros Hc. apply cycle_spec in Hc as (-> & _).
  apply (for_items_prefix max_items _ (set_new_items_found 0 (start_scan st))).
Qed.

(** C1 does not hold of the code.  The loop reads the link of an item and
    tests it against [collected_urls]; [extract_product_info] reads the
    link again for the record; the set then gets the first read and the
    list the second.  On a page whose first slot is re-rendered between the
    two reads (the shirt to the loop, the hoodie to the extractor) and
    whose second slot is the hoodie, the run returns the hoodie twice: two
    items share a [product_url], and the seen set holds a link that is the
    key of no collected item. *)
Theorem relinked_item_is_collected_twice :
  ∃ run out,
    crawl_musinsa (static_page [recycled_card; hoodie])
      "https://www.musinsa.com/category/001006"
      "database/temp_knit_sweater.json" 50 = Some run ∧
    returned run = Return out ∧
    keys out = [Some "https://www.musinsa.com/products/2";
                Some "https://www.musinsa.com/products/2"] ∧
    Some "https://www.musinsa.com/products/1" ∈ collected_urls (final run) ∧
    (Some "https://www.musinsa.com/products/1" ∉ keys out) ∧
    ¬ Inv (final run).
Proof.
  destruct (crawl_musinsa_run (static_page [recycled_card; hoodie])
              "https://www.musinsa.com/category/001006"
              "database/temp_knit_sweater.json" 50)
    as (run & Hrun & Hret & _).
  assert ((λ run, (keys (products (final run)),
                   bool_decide (Some "https://www.musinsa.com/products/1"
                                  ∈ collected_urls (final run))))
            <$> crawl_musinsa (static_page [recycled_card; hoodie])
                  "https://www.musinsa.com/category/001006"
                  "database/temp_knit_sweater.json" 50
          = Some ([Some "https://www.musinsa.com/products/2";
                   Some "https://www.musinsa.com/products/2"], true)) as Hval
    by (vm_compute; reflexivity).
  rewrite Hrun in Hval. injection Hval as Hkeys Hseen.
  exists run, (products (final run)). split; [exact Hrun|].
  split; [exact Hret|]. split; [exact Hkeys|].
  split; [exact (bool_decide_eq_true_1 _ Hseen)|].
  split.
  - rewrite Hkeys. intros Hin.
    apply elem_of_cons in Hin as [Hin|Hin]; [discriminate Hin|].
    apply elem_of_cons in Hin as [Hin|Hin]; [discriminate Hin|].
    by apply not_elem_of_nil in Hin.
  - intros [Hnd _ _]. rewrite Hkeys in Hnd.
    apply NoDup_cons in Hnd as [Hnot _]. apply Hnot.
    apply elem_of_cons. by left.
Qed.

(** C2 does not hold of the code, by the same double read as C1.  On a
    page whose slots show, in order, a card re-rendered from shirt to
    hoodie between the two reads, the shirt and the hoodie, the identity
    keys of the records are first observed in the order hoodie, shirt; the
    run returns the hoodie twice and the shirt never, since the loop's
    read of the first slot has marked the shirt's link as seen. *)
Theorem relinked_item_breaks_first_seen_order :
  ∃ run out,
    crawl_musinsa (static_page [recycled_card; shirt; hoodie])
      "https://www.musinsa.com/category/001006"
      "database/temp_knit_sweater.json" 50 = Some run ∧
    returned run = Return out ∧
    keys (observations (static_page [recycled_card; shirt; hoodie]) 0 1).*2
    = [Some "https://www.musinsa.com/products/2";
       Some "https://www.musinsa.com/products/1";
       Some "https://www.musinsa.com/products/2"] ∧
    keys out = [Some "https://www.musinsa.com/products/2";
                Some "https://www.musinsa.com/products/2"].
Proof.
  destruct (crawl_musinsa_run (static_page [recycled_card; shirt; hoodie])
              "https://www.musinsa.com/category/001006"
              "database/temp_knit_sweater.json" 50)
    as (run & Hrun & Hret & _).
  assert ((λ run, keys (products (final run)))
            <$> crawl_musinsa (static_page [recycled_card; shirt; hoodie])
                  "https://www.musinsa.com/category/001006"
                  "database/temp_knit_sweater.json" 50
          = Some [Some "https://www.musinsa.com/products/2";
                  Some "https://www.musinsa.com/products/2"]) as Hval
    by (vm_compute; reflexivity).
  rewrite Hrun in Hval. injection Hval as Hkeys.
  exists run, (products (final run)). split; [exact Hrun|].
  split; [exact Hret|]. split; [vm_compute; reflexivity|exact Hkeys].
Qed.

(** C3, as the specification states it, fails: the caller cannot observe
    the outcome.  [crawl_musinsa] returns the list and nothing else; a run
    that ended [exhausted] and a run cut short by a swallowed session crash
    return the same list for the same target.  And with a target of zero
    and a page that fails to load, the list has as many items as the
    target asks for although the loop never ran. *)
Lemma outcome_is_not_returned :
  (∃ run1 run2,
     crawl_musinsa (static_page [shirt; hoodie])
       "https://www.musinsa.com/category/001006"
       "database/temp_knit_sweater.json" 50 = Some run1 ∧
     crawl_musinsa crashing_session
       "https://www.musinsa.com/category/001006"
       "database/temp_knit_sweater.json" 50 = Some run2 ∧
     returned run1 = returned run2 ∧
     outcome run1 = Some exhausted ∧ caught run1 = None ∧
     outcome run2 = None ∧ caught run2 = Some WebDriverException) ∧
  (∃ run out,
     crawl_musinsa broken_session
       "https://www.musinsa.com/category/001006"
       "database/temp_knit_sweater.json" 0 = Some run ∧
     returned run = Return out ∧ length out = 0 ∧
     outcome run ≠ Some reached_target).
Proof.
  split.
  - destruct (crawl_musinsa_run (static_page [shirt; hoodie])
                "https://www.musinsa.com/category/001006"
                "database/temp_knit_sweater.json" 50) as (run1 & Hrun1 & _).
    destruct (crawl_musinsa_run crashing_session
                "https://www.musinsa.com/category/001006"
                "database/temp_knit_sweater.json" 50) as (run2 & Hrun2 & _).
    assert ((λ run, (returned run, outcome run, caught run))
              <$> crawl_musinsa (static_page [shirt; hoodie])
                    "https://www.musinsa.com/category/001006"
                    "database/temp_knit_sweater.json" 50
            = (λ run, (returned run, Some exhausted, None))
              <$> crawl_musinsa crashing_session
                    "https://www.musinsa.com/category/001006"
                    "database/temp_knit_sweater.json" 50) as H1
      by (vm_compute; reflexivity).
    assert ((λ run, (outcome run, caught run))
              <$> crawl_musinsa crashing_session
                    "https://www.musinsa.com/category/001006"
                    "database/temp_knit_sweater.json" 50
            = Some (None, Some WebDriverException)) as H2
      by (vm_compute; reflexivity).
    rewrite Hrun1, Hrun2 in H1. rewrite Hrun2 in H2.
    injection H1 as Hr Ho Hc. injection H2 as Ho2 Hc2.
    exists run1, run2. split; [exact Hrun1|]. split; [exact Hrun2|].
    split; [exact Hr|]. split; [exact Ho|]. split; [exact Hc|].
    split; [exact Ho2|exact Hc2].
  - eexists. exists []. split; [reflexivity|]. split; [reflexivity|].
    split; [reflexivity|]. discriminate.
Qed.

(** C3, amended.  The returned list never has more than [max_items]
    items.  When the loop has ended (with [reached_target] or [exhausted])
    the list has exactly [max_items] items if and only if the loop ended
    with [reached_target], and fewer when it ended with [exhausted]; a run
    whose loop did not end was cut short by a caught exception and, for a
    positive target, returns fewer than [max_items] items.  The outcome is
    that of the loop of the run, and the list is all the call returns. *)
Theorem output_bounded_by_target (drv : Driver) (url output_file : string)
    (max_items : nat) :
  ∃ run out,
    crawl_musinsa drv url output_file max_items = Some run ∧
    returned run = Return out ∧
    length out ≤ max_items ∧
    (∀ o, outcome run = Some o →
          (length out = max_items ↔ o = reached_target)) ∧
    (outcome run = Some exhausted → length out < max_items) ∧
    (outcome run = None →
       caught run ≠ None ∧ (0 < max_items → length out < max_items)) ∧
    (∀ o st, loop_ended drv url max_items o st →
             outcome run = Some o ∧ out = products st).
Proof.
  destruct (crawl_musinsa_run drv url output_file max_items)
    as (run & Hrun & Hret & Hle & _ & _ & Hcnt & Ho & _).
  exists run, (products (final run)). rewrite <- Hcnt.
  split_and!; try done.
  - intros o Hout. rewrite Hout in Ho. destruct o; split; try done; lia.
  - intros Hout. by rewrite Hout in Ho.
  - intros Hout. by rewrite Hout in Ho.
  - intros o st Hend.
    pose proof (crawl_musinsa_loop_ended drv url output_file max_items o st Hend)
      as Hrun'.
    rewrite Hrun in Hrun'. injection Hrun' as ->.
    destruct (open_w drv output_file); [|done].
    by destruct (json_dump drv output_file (products st)).
Qed.

Lemma output_bounded_by_target_witness :
  ∃ run out,
    crawl_musinsa (static_page []) "https://www.musinsa.com/category/001006"
      "database/temp_knit_sweater.json" 1 = Some run ∧
    returned run = Return out ∧
    outcome run = Some exhausted ∧
    length out < 1.
Proof.
  destruct (output_bounded_by_target (static_page [])
              "https://www.musinsa.com/category/001006"
              "database/temp_knit_sweater.json" 1)
    as (run & out & Hrun & Hret & _ & _ & Hex & _).
  assert (outcome <$> crawl_musinsa (static_page [])
                        "https://www.musinsa.com/category/001006"
                        "database/temp_knit_sweater.json" 1
          = Some (Some exhausted)) as Ho by (vm_compute; reflexivity).
  rewrite Hrun in Ho. injection Ho as Ho.
  exists run, out. split; [exact Hrun|]. split; [exact Hret|].
  split; [exact Ho|]. apply Hex. exact Ho.
Defined.

(** C4. Stall termination.  A scan that yields a new item resets
    [no_new_items_count] to 0 and an empty scan adds one to it; and from any
    point of the run where the counter is 0, ten scans in a row that each
    contribute no new item (with the nine scrolls between them) end the loop
    with [exhausted] right after the tenth scan: the tenth scan is the last
    event of the loop, ten scans and nine scrolls were made, and nothing was
    collected. *)
Theorem stall_termination (drv : Driver) (max_items : nat) (st : State) :
  (∀ items r st',
     driver_find_elements drv (scan_count st) = Return items →
     cycle drv max_items st = (r, st') →
     (¬ empty_scan max_items items st → no_new_items_count st' = 0) ∧
     (empty_scan max_items items st →
        no_new_items_count st' = S (no_new_items_count st))) ∧
  (∀ (ys : list Z) (fuel : nat),
     collected_count st < max_items →
     no_new_items_count st = 0 →
     (∀ i, i < 10 →
        ∃ items, driver_find_elements drv (scan_count st + i) = Return items ∧
                 empty_scan max_items items st) →
     length ys = 9 →
     (∀ j y, ys !! j = Some y → scroll_succeeds drv (scroll_count st + j) y) →
     10 ≤ fuel →
     ∃ st', while_loop fuel drv max_items st = Some (Return exhausted, st') ∧
       products st' = products st ∧
       no_new_items_count st' = 10 ∧
       scan_count st' = scan_count st + 10 ∧
       scroll_count st' = scroll_count st + 9 ∧
       trace st' = trace st ++ scroll_events ys ++ [EvFindElements]).
Proof.
  split.
  - intros items r st' Hscan Hc.
    destruct (cycle_stall_counter drv max_items st items r st' Hscan Hc)
      as [Hreset Hcount].
    split; intros He; [apply Hreset|apply Hcount].
    + intros He'. apply He.
      by apply (empty_scan_agree max_items items (start_scan st) st).
    + by apply (empty_scan_agree max_items items st (start_scan st)).
  - intros ys fuel Hroom Hzero Hscans Hlen Hscrolls Hfuel.
    destruct (stall_run drv max_items ys st fuel)
      as (st' & Hw & Hp & Hn & Hsc & Hsr & Ht); try done; try lia.
    + intros i Hi. apply Hscans. lia.
    + exists st'. rewrite Hlen in *. by split_and!.
Qed.

Lemma stall_termination_witness :
  ∃ st',
    while_loop 10 (static_page []) 50 init_state = Some (Return exhausted, st') ∧
    products st' = [] ∧
    no_new_items_count st' = 10 ∧
    scan_count st' = 10 ∧
    scroll_count st' = 9 ∧
    trace st'
    = scroll_events [0; 2000; 4000; 6000; 8000; 10000; 12000; 14000; 16000]%Z
      ++ [EvFindElements].
Proof.
  apply (proj2 (stall_termination (static_page []) 50 init_state)
           [0; 2000; 4000; 6000; 8000; 10000; 12000; 14000; 16000]%Z 10).
  - simpl. lia.
  - reflexivity.
  - intros i _. exists []. split; reflexivity.
  - reflexivity.
  - intros j y Hj.
    do 9 (destruct j as [|j];
          [injection Hj as <-; split; [reflexivity|];
           split; [by exists 2000%Z|reflexivity]|]).
    discriminate Hj.
  - lia.
Defined.

(** C5, as the specification states it, fails: a navigation fault is not
    surfaced to the orchestrator.  When the page fails to load,
    [crawl_musinsa] catches the exception and returns the empty list like a
    normal result. *)
Lemma navigation_fault_is_swallowed :
  get broken_session "https://www.musinsa.com/category/001006"
  = Raise WebDriverException ∧
  ∃ run,
    crawl_musinsa broken_session "https://www.musinsa.com/category/001006"
      "database/temp_knit_sweater.json" 50 = Some run ∧
    returned run = Return [] ∧
    caught run = Some WebDriverException.
Proof.
  split; [reflexivity|]. eexists. split; [reflexivity|]. split; reflexivity.
Qed.

(** C5, amended.  [crawl_musinsa] never raises, neither for missing fields
    or duplicate items nor for a navigation or session fault.  Such a fault
    (the page does not load, the wait for the marker fails, a scan raises,
    a script of a scroll raises) is fatal to the run: it is caught inside
    [crawl_musinsa], the list collected up to it is returned, and nothing
    follows it but [driver.quit()].  On every exit path [driver.quit()] is
    called, once, as the last action. *)
Theorem crawl_never_raises (drv : Driver) (url output_file : string)
    (max_items : nat) :
  ∃ run out,
    crawl_musinsa drv url output_file max_items = Some run ∧
    returned run = Return out ∧
    (∃ evs, trace (final run) = evs ++ [EvQuit] ∧ EvQuit ∉ evs) ∧
    (∀ e, get drv url = Raise e →
          caught run = Some e ∧ out = [] ∧
          trace (final run) = [EvGet url; EvQuit]) ∧
    (∀ e, get drv url = Return () → wait_until drv = Raise e →
          caught run = Some e ∧ out = [] ∧
          trace (final run) = [EvGet url; EvWaitUntil; EvQuit]) ∧
    (∀ st e,
       reached drv url max_items st → collected_count st < max_items →
       cycle_fault drv max_items st e →
       caught run = Some e ∧ out = products st ∧
       (trace (final run) = trace st ++ [EvFindElements; EvQuit] ∨
        ∃ y, page_y_offset drv (scroll_count st) = Return y ∧
             scroll_to drv (scroll_count st) (y + 2000)%Z = Raise e ∧
             trace (final run)
             = trace st ++ [EvFindElements; EvScrollTo (y + 2000)%Z; EvQuit])) ∧
    (∀ n e, driver_find_elements drv n = Raise e →
            scan_count (final run) ≤ S n).
Proof.
  destruct (crawl_musinsa_run drv url output_file max_items)
    as (run & Hrun & Hret & _ & _ & _ & _ & _ & (evs & Hloop & Ht)
        & Hget & Hwait & Hscan).
  exists run, (products (final run)). split_and!; try done.
  - pose proof (loop_events_exclude EvQuit evs eq_refl Hloop) as Hq.
    destruct (caught run); [destruct Ht as [Ht|[Ht|Ht]]|].
    + exists ([EvGet url] ++ evs). rewrite Ht, <- app_assoc. split; [done|].
      intros [H|H]%elem_of_app; [|done].
      by apply list_elem_of_singleton in H.
    + exists ([EvGet url; EvWaitUntil] ++ evs). rewrite Ht, <- app_assoc.
      split; [done|]. intros [H|H]%elem_of_app; [|done].
      apply elem_of_cons in H as [H|H]; [done|].
      by apply list_elem_of_singleton in H.
    + exists ([EvGet url; EvWaitUntil] ++ evs ++ [EvOpen output_file]).
      rewrite Ht. split; [by rewrite <- !app_assoc|].
      intros [H|[H|H]%elem_of_app]%elem_of_app; [|done|].
      * apply elem_of_cons in H as [H|H]; [done|].
        by apply list_elem_of_singleton in H.
      * by apply list_elem_of_singleton in H.
    + exists ([EvGet url; EvWaitUntil] ++ evs
              ++ [EvOpen output_file;
                  EvJsonDump output_file (products (final run))]).
      rewrite Ht. split; [by rewrite <- !app_assoc|].
      intros [H|[H|H]%elem_of_app]%elem_of_app; [|done|].
      * apply elem_of_cons in H as [H|H]; [done|].
        by apply list_elem_of_singleton in H.
      * apply elem_of_cons in H as [H|H]; [done|].
        by apply list_elem_of_singleton in H.
  - intros e He. destruct (Hget e He) as [-> ->]. done.
  - intros e Hg He. destruct (Hwait e Hg He) as [-> ->]. done.
  - intros st e Hst Hroom Hfault.
    destruct (cycle_fault_spec drv max_items st e Hfault)
      as (st' & Hc & Hp & _ & Htr).
    pose proof (crawl_musinsa_cycle_raises drv url output_file max_items
                  st e st' Hst Hroom Hc) as Hrun'.
    rewrite Hrun in Hrun'. injection Hrun' as ->. simpl.
    split; [done|]. split; [done|].
    destruct Htr as [->|(y & Hy & Hto & ->)]; [left|right].
    + by rewrite <- app_assoc.
    + exists y. split_and!; [done..|]. by rewrite <- app_assoc.
Qed.

Lemma crawl_never_raises_witness :
  ∃ run,
    crawl_musinsa (stuck_page []) "https://www.musinsa.com/category/001006"
      "database/temp_knit_sweater.json" 50 = Some run ∧
    caught run = Some WebDriverException ∧
    returned run = Return [] ∧
    trace (final run)
    = [EvGet "https://www.musinsa.com/category/001006"; EvWaitUntil;
       EvFindElements; EvScrollTo 2000; EvQuit].
Proof.
  destruct (crawl_never_raises (stuck_page [])
              "https://www.musinsa.com/category/001006"
              "database/temp_knit_sweater.json" 50)
    as (run & out & Hrun & Hret & _ & _ & _ & Hfault & _).
  destruct (Hfault (entry "https://www.musinsa.com/category/001006")
              WebDriverException)
    as (Hc & -> & Ht).
  - by apply reached_entry.
  - simpl. lia.
  - right. exists []. split; [reflexivity|]. split; [reflexivity|].
    split; [simpl; lia|]. right. exists 0%Z. split; [reflexivity|].
    right. split; [by exists 2000%Z|reflexivity].
  - exists run. split; [exact Hrun|]. split; [exact Hc|].
    split; [exact Hret|].
    destruct Ht as [Ht|(y & Hy & _ & Ht)]; [|injection Hy as <-; exact Ht].
    exfalso.
    assert ((λ run, length (trace (final run)))
              <$> crawl_musinsa (stuck_page [])
                    "https://www.musinsa.com/category/001006"
                    "database/temp_knit_sweater.json" 50 = Some 5) as Hlen
      by (vm_compute; reflexivity).
    rewrite Hrun in Hlen. injection Hlen as Hlen. rewrite Ht in Hlen.
    discriminate Hlen.
Defined.

(** C10, as the claim states it, fails: an exception can be caught after
    the output file was opened.  On a full disk [open] empties the file
    and [json.dump] raises; the exception is caught and the list returned,
    but what the file held before is gone. *)
Lemma failed_dump_empties_the_file :
  ∃ run,
    crawl_musinsa (full_disk [shirt])
      "https://www.musinsa.com/category/001004" (temp_file "hoodie") 1
    = Some run ∧
    caught run = Some OSError ∧
    keys <$> returned run = Return [Some "https://www.musinsa.com/products/1"] ∧
    old_files !! temp_file "hoodie" = Some (ProductsJson [old_product]) ∧
    files_after (trace (final run)) old_files !! temp_file "hoodie"
    = Some NotJson.
Proof.
  destruct (crawl_musinsa_run (full_disk [shirt])
              "https://www.musinsa.com/category/001004" (temp_file "hoodie") 1)
    as (run & Hrun & _).
  assert ((λ run, (caught run, keys <$> returned run, trace (final run)))
            <$> crawl_musinsa (full_disk [shirt])
                  "https://www.musinsa.com/category/001004"
                  (temp_file "hoodie") 1
          = Some (Some OSError,
                  Return [Some "https://www.musinsa.com/products/1"],
                  [EvGet "https://www.musinsa.com/category/001004";
                   EvWaitUntil; EvFindElements; EvOpen (temp_file "hoodie");
                   EvQuit])) as Hval
    by (vm_compute; reflexivity).
  rewrite Hrun in Hval. injection Hval as Hc Hr Ht.
  exists run. split; [exact Hrun|]. split; [exact Hc|]. split; [exact Hr|].
  split; [apply lookup_singleton_eq|].
  rewrite Ht. simpl. apply lookup_insert_eq.
Qed.

(** C10, amended.  Every exception raised in the [try] block of
    [crawl_musinsa] (by the page load, the wait, a scan, a script of a
    scroll, the opening of the output file or the dump) is caught: the call
    does not raise and returns [products] as it was when the exception was
    raised.  The output file is left as it was when the exception came
    before the file was opened, [open] included; an exception of the dump
    leaves the file empty or partly written.  When nothing is raised the
    file holds the returned list. *)
Theorem caught_exception_returns_collected (drv : Driver)
    (url output_file : string) (max_items : nat)
    (files : gmap string FileData) :
  ∃ run,
    crawl_musinsa drv url output_file max_items = Some run ∧
    returned run = Return (products (final run)) ∧
    (∀ e, get drv url = Raise e →
       caught run = Some e ∧ returned run = Return [] ∧
       files_after (trace (final run)) files = files) ∧
    (∀ e, get drv url = Return () → wait_until drv = Raise e →
       caught run = Some e ∧ returned run = Return [] ∧
       files_after (trace (final run)) files = files) ∧
    (∀ st e,
       reached drv url max_items st → collected_count st < max_items →
       cycle_fault drv max_items st e →
       caught run = Some e ∧ returned run = Return (products st) ∧
       files_after (trace (final run)) files = files) ∧
    (∀ o st e,
       loop_ended drv url max_items o st →
       open_w drv output_file = Raise e →
       caught run = Some e ∧ returned run = Return (products st) ∧
       files_after (trace (final run)) files = files) ∧
    (∀ o st e,
       loop_ended drv url max_items o st →
       open_w drv output_file = Return () →
       json_dump drv output_file (products st) = Raise e →
       caught run = Some e ∧ returned run = Return (products st) ∧
       files_after (trace (final run)) files
       = <[output_file := NotJson]> files) ∧
    (∀ o st,
       loop_ended drv url max_items o st →
       open_w drv output_file = Return () →
       json_dump drv output_file (products st) = Return () →
       caught run = None ∧ returned run = Return (products st) ∧
       files_after (trace (final run)) files
       = <[output_file := ProductsJson (products st)]> files) ∧
    (∀ e, caught run = Some e →
       ∀ data, EvJsonDump output_file data ∉ trace (final run)).
Proof.
  destruct (crawl_musinsa_run drv url output_file max_items)
    as (run & Hrun & Hret & _ & _ & _ & _ & _ & (evs & Hloop & Ht)
        & Hget & Hwait & _).
  exists run. split_and!; try done.
  - intros e He. destruct (Hget e He) as [Hc Hf]. rewrite Hret, Hf. done.
  - intros e Hg He. destruct (Hwait e Hg He) as [Hc Hf]. rewrite Hret, Hf. done.
  - intros st e Hst Hroom Hfault.
    destruct (cycle_fault_spec drv max_items st e Hfault)
      as (st' & Hc & Hp & _).
    pose proof (crawl_musinsa_cycle_raises drv url output_file max_items
                  st e st' Hst Hroom Hc) as Hrun'.
    rewrite Hrun in Hrun'. injection Hrun' as ->. simpl.
    split; [done|]. split; [by rewrite Hp|].
    rewrite files_after_app. simpl.
    rewrite (cycle_files drv max_items st _ st' files Hc).
    by apply (reached_files drv url max_items).
  - intros o st e Hend Hopen.
    pose proof (crawl_musinsa_loop_ended drv url output_file max_items o st Hend)
      as Hrun'.
    rewrite Hrun, Hopen in Hrun'. injection Hrun' as ->. simpl.
    split_and!; [done..|]. rewrite files_after_app. simpl.
    by apply (loop_ended_files drv url max_items o).
  - intros o st e Hend Hopen Hdump.
    pose proof (crawl_musinsa_loop_ended drv url output_file max_items o st Hend)
      as Hrun'.
    rewrite Hrun, Hopen, Hdump in Hrun'. injection Hrun' as ->. simpl.
    split_and!; [done..|]. rewrite !files_after_app. simpl.
    by rewrite (loop_ended_files drv url max_items o).
  - intros o st Hend Hopen Hdump.
    pose proof (crawl_musinsa_loop_ended drv url output_file max_items o st Hend)
      as Hrun'.
    rewrite Hrun, Hopen, Hdump in Hrun'. injection Hrun' as ->. simpl.
    split_and!; [done..|]. rewrite !files_after_app. simpl.
    rewrite (loop_ended_files drv url max_items o) by done.
    by rewrite insert_insert_eq.
  - intros e He data Hin. rewrite He in Ht.
    pose proof (loop_events_exclude (EvJsonDump output_file data) evs
                  eq_refl Hloop).
    destruct Ht as [Ht|[Ht|Ht]]; rewrite Ht in Hin.
    + apply elem_of_cons in Hin as [Hin|[Hin|Hin]%elem_of_app]; [done..|].
      by apply list_elem_of_singleton in Hin.
    + apply elem_of_cons in Hin as [Hin|Hin]; [done|].
      apply elem_of_cons in Hin as [Hin|[Hin|Hin]%elem_of_app]; [done..|].
      by apply list_elem_of_singleton in Hin.
    + apply elem_of_cons in Hin as [Hin|Hin]; [done|].
      apply elem_of_cons in Hin as [Hin|[Hin|Hin]%elem_of_app]; [done..|].
      apply elem_of_cons in Hin as [Hin|Hin]; [done|].
      by apply list_elem_of_singleton in Hin.
Qed.

Lemma caught_exception_returns_collected_witness :
  ∃ run,
    crawl_musinsa (stuck_page [])
      "https://www.musinsa.com/category/001004" (temp_file "hoodie") 50
    = Some run ∧
    caught run = Some WebDriverException ∧
    returned run = Return [] ∧
    files_after (trace (final run)) old_files = old_files.
Proof.
  destruct (caught_exception_returns_collected (stuck_page [])
              "https://www.musinsa.com/category/001004" (temp_file "hoodie")
              50 old_files)
    as (run & Hrun & _ & _ & _ & Hfault & _).
  exists run. split; [exact Hrun|].
  apply (Hfault (entry "https://www.musinsa.com/category/001004")
           WebDriverException).
  - by apply reached_entry.
  - simpl. lia.
  - right. exists []. split; [reflexivity|]. split; [reflexivity|].
    split; [simpl; lia|]. right. exists 0%Z. split; [reflexivity|].
    right. split; [by exists 2000%Z|reflexivity].
Defined.

(** ** The scenarios of the specification, run on the model *)

(** A page that shows two cards and never more: the first scan collects
    both, ten empty scans follow with nine scrolls between them, and the run
    ends [exhausted]. *)
Example two_cards_then_stall :
  (λ run, (keys <$> returned run, outcome run, caught run,
           scan_count (final run), scroll_count (final run)))
    <$> crawl_musinsa (static_page [shirt; hoodie; shirt])
          "https://www.musinsa.com/category/001006"
          "database/temp_knit_sweater.json" 50
  = Some (Return [Some "https://www.musinsa.com/products/1";
                  Some "https://www.musinsa.com/products/2"],
          Some exhausted, None, 11, 9).
Proof. vm_compute. reflexivity. Qed.

(** With a target of one item the same page is left after the first card. *)
Example target_reached_in_first_scan :
  (λ run, (keys <$> returned run, outcome run, length (trace (final run))))
    <$> crawl_musinsa (static_page [shirt; hoodie; shirt])
          "https://www.musinsa.com/category/001006"
          "database/temp_knit_sweater.json" 1
  = Some (Return [Some "https://www.musinsa.com/products/1"],
          Some reached_target, 6).
Proof. vm_compute. reflexivity. Qed.

(** * Further properties of the collection loop *)

Lemma truthy_Some (v : option string) :
  truthy v = true → ∃ s, v = Some s ∧ s ≠ "".
Proof.
  destruct v as [s|]; [|done]. simpl. intros Hs. exists s. split; [done|].
  intros ->. done.
Qed.

(** Every observation of a run comes from a handle of one of its scans. *)
Lemma observations_elem (drv : Driver) (a n : nat)
    (o : option string * Product) :
  o ∈ observations drv a n →
  ∃ k item, item ∈ scanned drv k ∧ observed item = Some o.
Proof.
  unfold observations. intros (item & Hin & Hobs)%list_elem_of_omap.
  apply list_elem_of_In, in_concat in Hin as (items & Hitems & Hitem).
  apply list_elem_of_In, list_elem_of_fmap in Hitems as (k & -> & _).
  exists k, item. split; [by apply list_elem_of_In|done].
Qed.

(** X1. Every item of the returned list has a [product_url] that is a
    non-empty string: an item whose link is null or empty is never
    collected. *)
Theorem collected_items_have_url (drv : Driver) (url output_file : string)
    (max_items : nat) :
  ∃ run out,
    crawl_musinsa drv url output_file max_items = Some run ∧
    returned run = Return out ∧
    ∀ p, p ∈ out → ∃ s, product_url p = Some s ∧ s ≠ "".
Proof.
  destruct (crawl_musinsa_run drv url output_file max_items)
    as (run & Hrun & Hret & _ & Hprod & _).
  exists run, (products (final run)). split; [done|]. split; [done|].
  intros p Hp. rewrite Hprod in Hp.
  apply list_elem_of_fmap in Hp as ([u q] & -> & Ho).
  apply subseteq_take, first_seen_subseteq in Ho.
  apply observations_elem in Ho as (k & item & _ & Hobs).
  apply observed_Some in Hobs as (_ & _ & Ht). by apply truthy_Some.
Qed.

(** X2. The progress line printed at every tenth collected item slices
    [product_name]; when the name is missing this raises [TypeError] inside
    the [try] block, after the item has been appended: the item stays
    collected and counted.  [url] is the link the loop read on the handle,
    [p] the record the extractor built from it. *)
Theorem progress_line_fault_keeps_item (item : WebElement)
    (url : option string) (p : Product) (st : State) :
  observed item = Some (url, p) →
  url ∉ collected_urls st →
  product_name p = None →
  (collected_count st + 1) mod 10 = 0 →
  item_try item st = (Raise TypeError, add_product p url st) ∧
  products (item_step item st) = products st ++ [p] ∧
  collected_count (item_step item st) = collected_count st + 1 ∧
  new_items_found (item_step item st) = new_items_found st + 1.
Proof.
  intros Hobs Hnew Hname Hten.
  apply observed_Some in Hobs as (Hl & Hp & Ht).
  assert (item_try item st = (Raise TypeError, add_product p url st)) as Htry.
  { unfold item_try. rewrite Hl.
    destruct (decide _) as [|_]; [done|]. rewrite Hp, Ht. simpl.
    destruct (decide _) as [_|]; [|done]. by rewrite Hname. }
  split; [done|]. unfold item_step. by rewrite Htry.
Qed.

Lemma progress_line_fault_keeps_item_witness :
  ∃ url p, observed nameless_card = Some (url, p) ∧
           product_name p = None ∧
           products (item_step nameless_card nine_counted) = [p] ∧
           collected_count (item_step nameless_card nine_counted) = 10.
Proof.
  eexists _, _. split; [reflexivity|]. split; [reflexivity|].
  destruct (progress_line_fault_keeps_item nameless_card _ _ nine_counted
              eq_refl (not_elem_of_empty _) eq_refl eq_refl)
    as (_ & Hp & Hc & _).
  split; [exact Hp|exact Hc].
Defined.

Lemma cycle_scroll_count (drv : Driver) (max_items : nat) (st : State)
    (r : result Flow) (st' : State) :
  cycle drv max_items st = (r, st') →
  scroll_count st ≤ scroll_count st' ∧ scroll_count st' ≤ S (scroll_count st).
Proof.
  unfold cycle.
  destruct (driver_find_elements drv (scan_count st)) as [items|e];
    [|intros [= <- <-]; simpl; lia].
  pose proof (for_items_frame max_items items
                (set_new_items_found 0 (start_scan st))) as (Hs & _).
  simpl in Hs. unfold evaluate, scroll.
  repeat (first [ destruct (decide _) | destruct (page_y_offset _ _)
                | destruct (scroll_height _ _) | destruct (scroll_to _ _ _) ];
          simpl);
    intros [= <- <-]; simpl; lia.
Qed.

Lemma while_loop_scans (drv : Driver) (max_items fuel : nat) (st : State)
    (r : result Outcome) (st' : State) :
  while_loop fuel drv max_items st = Some (r, st') →
  no_new_items_count st < 10 →
  scan_count st'
  ≤ scan_count st + (10 * (max_items - collected_count st) - no_new_items_count st) ∧
  scroll_count st' + scan_count st ≤ scroll_count st + scan_count st'.
Proof.
  revert st. induction fuel as [|fuel IH]; intros st; simpl.
  - destruct (decide _); [done|]. intros [= <- <-]. lia.
  - destruct (decide _) as [Hroom|]; [|intros [= <- <-]; lia].
    destruct (cycle drv max_items st) as [r1 st1] eqn:Hc.
    pose proof (cycle_scroll_count _ _ _ _ _ Hc) as [_ Hscroll].
    apply cycle_spec in Hc as (_ & _ & _ & Hs & _ & Hr).
    destruct r1 as [[|o]|e].
    + intros Hw Hstall. apply IH in Hw as [H1 H2].
      * destruct Hr as [(? & ? & ?)|(? & ? & ?)]; lia.
      * destruct Hr as [(? & ? & ?)|(? & ? & ?)]; lia.
    + intros [= <- <-] Hstall. lia.
    + intros [= <- <-] Hstall. lia.
Qed.

(** X3. Bounded work: a call makes at most [10 * max_items] scans, and
    never more scrolls than scans. *)
Theorem scans_bounded (drv : Driver) (url output_file : string)
    (max_items : nat) :
  ∃ run,
    crawl_musinsa drv url output_file max_items = Some run ∧
    scan_count (final run) ≤ 10 * max_items ∧
    scroll_count (final run) ≤ scan_count (final run).
Proof.
  destruct (crawl_musinsa_run drv url output_file max_items)
    as (run & Hrun & _).
  exists run. split; [done|].
  destruct (crawl_musinsa_final drv url output_file max_items run Hrun)
    as [->|[->|(r & st & Hw & Hfin)]]; [simpl; lia..|].
  apply while_loop_scans in Hw as [H1 H2]; [|simpl; lia].
  simpl in H1, H2. destruct Hfin as [->|[->| ->]]; simpl; lia.
Qed.

(** X4. The loop scrolls only after an empty scan: a cycle whose scan yields
    a new item does not scroll and does not raise; it either ends the loop
    on the target or goes straight to the next scan. *)
Theorem no_scroll_after_productive_scan (drv : Driver) (max_items : nat)
    (st : State) (items : list WebElement) (r : result Flow) (st' : State) :
  driver_find_elements drv (scan_count st) = Return items →
  ¬ empty_scan max_items items st →
  cycle drv max_items st = (r, st') →
  trace st' = trace st ++ [EvFindElements] ∧
  scroll_count st' = scroll_count st ∧
  (r = Return Continue ∨ r = Return (Break reached_target)).
Proof.
  intros Hscan Hnew. unfold cycle. rewrite Hscan.
  pose proof (for_items_frame max_items items
                (set_new_items_found 0 (start_scan st)))
    as (Hsc & _ & _ & Htr).
  assert (0 < new_items_found
                (for_items max_items items
                   (set_new_items_found 0 (start_scan st)))) as Hpos.
  { destruct (decide (0 < new_items_found
                            (for_items max_items items
                               (set_new_items_found 0 (start_scan st)))))
      as [|Hz]; [done|].
    exfalso. apply Hnew.
    apply (empty_scan_agree max_items items (start_scan st) st); [done..|].
    unfold empty_scan. lia. }
  unfold evaluate. destruct (decide _) as [_|]; [|done].
  simpl in *. destruct (decide _); intros [= <- <-]; simpl; auto.
Qed.

Lemma no_scroll_after_productive_scan_witness :
  trace (cycle (static_page [shirt]) 50 init_state).2 = [EvFindElements] ∧
  scroll_count (cycle (static_page [shirt]) 50 init_state).2 = 0.
Proof.
  destruct (no_scroll_after_productive_scan (static_page [shirt]) 50
              init_state [shirt]
              (cycle (static_page [shirt]) 50 init_state).1
              (cycle (static_page [shirt]) 50 init_state).2 eq_refl)
    as (Ht & Hs & _).
  - unfold empty_scan. vm_compute. discriminate.
  - apply surjective_pairing.
  - split; [exact Ht|exact Hs].
Defined.

Lemma for_items_urls_mono (max_items : nat) (items : list WebElement)
    (st : State) :
  collected_urls st ⊆ collected_urls (for_items max_items items st).
Proof.
  revert st. induction items as [|item items IH]; intros st; simpl; [done|].
  destruct (decide _); [done|]. etrans; [|apply IH].
  destruct (item_step_cases item st) as [->|(url & p & _ & _ & ->)]; [done|].
  simpl. apply union_subseteq_r.
Qed.

(** A pass that ends below the target has seen the link of every
    observation of its handles. *)
Lemma for_items_seen (max_items : nat) (items : list WebElement) (st : State) :
  collected_count (for_items max_items items st) < max_items →
  ∀ item url p, item ∈ items → observed item = Some (url, p) →
                url ∈ collected_urls (for_items max_items items st).
Proof.
  revert st. induction items as [|item items IH]; intros st; simpl.
  - intros _ item url p Hin. by apply not_elem_of_nil in Hin.
  - destruct (decide _) as [Hfull|Hroom]; [lia|].
    intros Hlt item' url p [->|Hin]%elem_of_cons Hobs; [|by eapply IH].
    apply (for_items_urls_mono max_items items (item_step item st)).
    rewrite item_step_spec, Hobs. destruct (decide _); [done|].
    simpl. apply elem_of_union_l. by apply elem_of_singleton.
Qed.

Lemma for_items_all_seen (max_items : nat) (items : list WebElement)
    (st : State) :
  (∀ item url p, item ∈ items → observed item = Some (url, p) →
                 url ∈ collected_urls st) →
  for_items max_items items st = st.
Proof.
  induction items as [|item items IH]; intros Hseen; simpl; [done|].
  destruct (decide _); [done|].
  assert (item_step item st = st) as ->.
  { rewrite item_step_spec.
    destruct (observed item) as [[url p]|] eqn:Hobs; [|done].
    destruct (decide _) as [|Hn]; [done|]. exfalso. apply Hn.
    apply (Hseen item url p); [apply elem_of_cons; by left|done]. }
  apply IH. intros item' url p Hin. apply Hseen. apply elem_of_cons. by right.
Qed.

(** X5. Scanning the same cards again collects nothing.  After the [for]
    loop has gone over the handles [items], a pass over handles [items']
    leaves the state as it is and counts no new item, when every link under
    which [items'] offers a record is a link under which [items] offered
    one: the same cards found again by the next scan, in any order. *)
Theorem rescan_collects_nothing (max_items : nat)
    (items items' : list WebElement) (st : State) :
  (∀ item' url p', item' ∈ items' → observed item' = Some (url, p') →
     ∃ item p, item ∈ items ∧ observed item = Some (url, p)) →
  for_items max_items items' (for_items max_items items st)
  = for_items max_items items st ∧
  empty_scan max_items items' (for_items max_items items st).
Proof.
  intros Hsame.
  assert (∀ st1, (max_items ≤ collected_count st1 ∨
                  ∀ item' url p', item' ∈ items' →
                                  observed item' = Some (url, p') →
                                  url ∈ collected_urls st1) →
                 for_items max_items items' st1 = st1) as Hfix.
  { intros st1 [Hfull|Hseen]; [|by apply for_items_all_seen].
    destruct items'; simpl; [done|]. by destruct (decide _). }
  assert (max_items ≤ collected_count (for_items max_items items st) ∨
          ∀ item' url p', item' ∈ items' → observed item' = Some (url, p') →
                          url ∈ collected_urls (for_items max_items items st))
    as Hcase.
  { destruct (decide (max_items ≤ collected_count (for_items max_items items st)))
      as [|Hlt]; [by left|right].
    intros item' url p' Hin Hobs.
    destruct (Hsame item' url p' Hin Hobs) as (item & p & Hitem & Hp).
    eapply for_items_seen; [lia|done..]. }
  split; [by apply Hfix|].
  unfold empty_scan. rewrite Hfix; [done|]. exact Hcase.
Qed.

Lemma rescan_collects_nothing_witness :
  for_items 50 [hoodie; shirt] (for_items 50 [shirt; hoodie] init_state)
  = for_items 50 [shirt; hoodie] init_state ∧
  empty_scan 50 [hoodie; shirt] (for_items 50 [shirt; hoodie] init_state).
Proof.
  apply (rescan_collects_nothing 50 [shirt; hoodie] [hoodie; shirt] init_state).
  intros item' url p' Hin Hobs.
  apply elem_of_cons in Hin as [->|Hin].
  - exists hoodie, p'. split; [|exact Hobs].
    apply elem_of_cons. right. apply elem_of_cons. by left.
  - apply list_elem_of_singleton in Hin as ->.
    exists shirt, p'. split; [|exact Hobs]. apply elem_of_cons. by left.
Defined.

(** X6. With a target of zero the page is loaded and waited for, but never
    scanned or scrolled: the call returns the empty list.  Once the page is
    loaded and the marker found, the call opens the output file, dumps the
    empty list to it and quits the driver; when the file cannot be opened it
    only quits, and when the dump fails it quits after the opening. *)
Theorem zero_target_makes_no_scan (drv : Driver) (url output_file : string) :
  ∃ run,
    crawl_musinsa drv url output_file 0 = Some run ∧
    returned run = Return [] ∧
    scan_count (final run) = 0 ∧ scroll_count (final run) = 0 ∧
    (get drv url = Return () → wait_until drv = Return () →
     (open_w drv output_file = Return () →
      json_dump drv output_file [] = Return () →
      trace (final run)
      = [EvGet url; EvWaitUntil; EvOpen output_file;
         EvJsonDump output_file []; EvQuit]) ∧
     (∀ e, open_w drv output_file = Raise e →
           caught run = Some e ∧
           trace (final run) = [EvGet url; EvWaitUntil; EvQuit]) ∧
     (∀ e, open_w drv output_file = Return () →
           json_dump drv output_file [] = Raise e →
           caught run = Some e ∧
           trace (final run)
           = [EvGet url; EvWaitUntil; EvOpen output_file; EvQuit])).
Proof.
  unfold crawl_musinsa, crawl_try. simpl.
  destruct (get drv url) as [[]|]; [|by eexists].
  destruct (wait_until drv) as [[]|]; [|by eexists].
  destruct (open_w drv output_file) as [[]|];
    [destruct (json_dump drv output_file []) as [[]|]|];
    (eexists; split_and!; [done..|]; intros _ _; split_and!;
     [try done|by intros ? [= <-]|first [done|by intros ? _ [= <-]]]).
Qed.

Lemma zero_target_makes_no_scan_witness :
  ∃ run,
    crawl_musinsa (static_page [shirt]) "https://www.musinsa.com/category/001006"
      "database/temp_knit_sweater.json" 0 = Some run ∧
    trace (final run)
    = [EvGet "https://www.musinsa.com/category/001006"; EvWaitUntil;
       EvOpen "database/temp_knit_sweater.json";
       EvJsonDump "database/temp_knit_sweater.json" []; EvQuit].
Proof.
  destruct (zero_target_makes_no_scan (static_page [shirt])
              "https://www.musinsa.com/category/001006"
              "database/temp_knit_sweater.json")
    as (run & Hrun & _ & _ & _ & Ht).
  exists run. split; [exact Hrun|].
  exact (proj1 (Ht eq_refl eq_refl) eq_refl eq_refl).
Defined.

(** ** Uniqueness by the link the loop read *)

(** X17. What a call collects, in terms of the links the loop read.  The
    returned records are those of the first-seen observations of the scans
    made, as far as the target allows; the seen set holds exactly the links
    the loop read for them, and no such link belongs to two of them. *)
Theorem collected_by_loop_link (drv : Driver) (url output_file : string)
    (max_items : nat) :
  ∃ run out,
    crawl_musinsa drv url output_file max_items = Some run ∧
    out = take max_items
            (first_seen ∅ (observations drv 0 (scan_count (final run)))) ∧
    returned run = Return out.*2 ∧
    collected_urls (final run) = list_to_set out.*1 ∧
    NoDup out.*1.
Proof.
  destruct (crawl_musinsa_run drv url output_file max_items)
    as (run & Hrun & Hret & _ & Hprod & Hurls & _).
  exists run. eexists. split; [done|]. split; [reflexivity|].
  split; [by rewrite Hret, Hprod|]. split; [done|].
  rewrite fmap_take. eapply sublist_NoDup; [|apply sublist_take].
  apply first_seen_NoDup.
Qed.

(** X18. On handles whose link element answers the extractor as it answered
    the loop, the collection state of the specification holds when the call
    ends: no [product_url] occurs twice in the returned list, the seen set is
    exactly the set of its keys, and the counter is its length. *)
Theorem stable_links_give_unique_keys (drv : Driver) (url output_file : string)
    (max_items : nat) :
  (∀ n item, item ∈ scanned drv n → link_stable item) →
  ∃ run out,
    crawl_musinsa drv url output_file max_items = Some run ∧
    returned run = Return out ∧
    NoDup (keys out) ∧
    collected_urls (final run) = list_to_set (keys out) ∧
    Inv (final run).
Proof.
  intros Hstable.
  destruct (crawl_musinsa_run drv url output_file max_items)
    as (run & Hrun & Hret & _ & Hprod & Hurls & Hcnt & _).
  assert (keys (products (final run))
          = (take max_items
               (first_seen ∅ (observations drv 0 (scan_count (final run))))).*1)
    as Hkeys.
  { rewrite Hprod. unfold keys. rewrite <- list_fmap_compose.
    apply Forall_fmap_ext, Forall_forall. intros [u p] Ho.
    apply subseteq_take, first_seen_subseteq in Ho.
    apply observations_elem in Ho as (k & item & Hin & Hobs).
    simpl. apply (observed_stable item); [by apply Hstable with k|done]. }
  assert (NoDup (keys (products (final run)))) as Hnd.
  { rewrite Hkeys, fmap_take. eapply sublist_NoDup; [|apply sublist_take].
    apply first_seen_NoDup. }
  exists run, (products (final run)).
  split_and!; [done|done|done|by rewrite Hkeys|].
  split; [done|by rewrite Hkeys|done].
Qed.

Lemma stable_links_give_unique_keys_witness :
  ∃ run out,
    crawl_musinsa (static_page [shirt; hoodie; shirt])
      "https://www.musinsa.com/category/001006"
      "database/temp_knit_sweater.json" 50 = Some run ∧
    returned run = Return out ∧
    NoDup (keys out) ∧
    collected_urls (final run) = list_to_set (keys out) ∧
    Inv (final run).
Proof.
  apply (stable_links_give_unique_keys (static_page [shirt; hoodie; shirt])).
  intros n item Hin. simpl in Hin.
  apply elem_of_cons in Hin as [->|Hin]; [reflexivity|].
  apply elem_of_cons in Hin as [->|Hin]; [reflexivity|].
  apply list_elem_of_singleton in Hin as ->. reflexivity.
Defined.
(** * Driver setup and the script *)

(** X7. A caller of [crawl_musinsa] sees an exception exactly when
    [setup_driver] fails, before any page is loaded; once the driver is
    there the call returns a list.  The setup fails exactly when the
    download of the driver or the start of Chrome raises, and the exception
    the caller sees is then fixed by the one raised there: a [ValueError]
    whose message does not mention [Timeout value] is passed on as it is,
    one whose message does becomes the [Exception] with the urllib3 advice,
    and every other exception becomes the [Exception] saying that
    ChromeDriver was not found. *)
Theorem call_raises_only_from_setup (env : SetupEnv) (url output_file : string)
    (max_items : nat) :
  (∀ e, crawl_musinsa_call env url output_file max_items = Some (inl e) ↔
        setup_driver env = inl e) ∧
  (∀ driver, setup_driver env = inr driver →
     ∃ run out,
       crawl_musinsa_call env url output_file max_items = Some (inr run) ∧
       crawl_musinsa driver url output_file max_items = Some run ∧
       returned run = Return out) ∧
  (∀ driver, setup_driver env = inr driver ↔
     ∃ driver_path, install env = inr driver_path ∧
                    Chrome env driver_path = inr driver) ∧
  (∀ e, setup_driver env = inl e →
     (∃ msg, e = ValueError msg ∧ str_in "Timeout value" msg = false) ∨
     e = OtherException urllib3_message ∨
     e = OtherException not_found_message) ∧
  (∀ e, (install env = inl e ∨
         ∃ driver_path, install env = inr driver_path ∧
                        Chrome env driver_path = inl e) →
     setup_driver env
     = inl match e with
           | ValueError msg =>
               if str_in "Timeout value" msg
               then OtherException urllib3_message
               else ValueError msg
           | OtherException _ => OtherException not_found_message
           end).
Proof.
  split_and!.
  - intros e. unfold crawl_musinsa_call.
    destruct (setup_driver env) as [e'|driver]; [split; congruence|].
    destruct (crawl_musinsa_run driver url output_file max_items)
      as (run & -> & _).
    simpl. split; congruence.
  - intros driver Hd. unfold crawl_musinsa_call. rewrite Hd.
    destruct (crawl_musinsa_run driver url output_file max_items)
      as (run & Hrun & Hret & _).
    exists run, (products (final run)). by rewrite Hrun.
  - intros driver. unfold setup_driver. split.
    + destruct (install env) as [[msg|msg]|path]; simpl.
      * by destruct (str_in _ _).
      * done.
      * destruct (Chrome env path) as [[msg|msg]|d] eqn:Hc; simpl.
        -- by destruct (str_in _ _).
        -- done.
        -- intros [= <-]. by exists path.
    + intros (path & -> & ->). done.
  - intros e. unfold setup_driver.
    destruct (install env) as [[msg|msg]|path]; simpl.
    + destruct (str_in _ _) eqn:Hin; intros [= <-]; eauto.
    + intros [= <-]. auto.
    + destruct (Chrome env path) as [[msg|msg]|d]; simpl.
      * destruct (str_in _ _) eqn:Hin; intros [= <-]; eauto.
      * intros [= <-]. auto.
      * done.
  - intros e [He|(path & Hp & He)]; unfold setup_driver.
    + rewrite He. destruct e as [msg|msg]; [|done]. by destruct (str_in _ _).
    + rewrite Hp, He. destruct e as [msg|msg]; [|done]. by destruct (str_in _ _).
Qed.

Lemma call_raises_only_from_setup_witness :
  crawl_musinsa_call setup_broken "https://www.musinsa.com/category/001004"
    "database/temp_hoodie.json" 1000
  = Some (inl (OtherException not_found_message)).
Proof.
  apply (proj1 (call_raises_only_from_setup setup_broken
                  "https://www.musinsa.com/category/001004"
                  "database/temp_hoodie.json" 1000)).
  reflexivity.
Defined.

Section Script.

Context (envs : string → SetupEnv).
Implicit Types (files : gmap string FileData) (cats : list (string * string)).

Lemma str_length_app (a b : string) :
  String.length (a +:+ b) = String.length a + String.length b.
Proof. induction a as [|c a IH]; simpl; [done|]. by rewrite IH. Qed.

Lemma append_inj_r (a b s : string) : a +:+ s = b +:+ s → a = b.
Proof.
  revert b. induction a as [|c a IH]; intros [|d b]; simpl; try done.
  - intros H. apply (f_equal String.length) in H.
    rewrite !str_length_app in H. simpl in H. lia.
  - intros H. apply (f_equal String.length) in H.
    rewrite !str_length_app in H. simpl in H. lia.
  - intros [= -> H]. f_equal. by apply IH.
Qed.

Lemma append_inj_l (s a b : string) : s +:+ a = s +:+ b → a = b.
Proof. induction s as [|c s IH]; simpl; [done|]. intros [= H]. by apply IH. Qed.

Lemma temp_file_inj (k1 k2 : string) : temp_file k1 = temp_file k2 → k1 = k2.
Proof.
  unfold temp_file. intros H.
  apply append_inj_l in H. by apply append_inj_r in H.
Qed.

Lemma crawl_category_cases files (category : string * string) :
  ∃ files', crawl_category envs files category = Some files' ∧
    match setup_driver (envs category.1) with
    | inl _ => files' = files
    | inr drv =>
        ∃ run, crawl_musinsa drv category.2 (temp_file category.1) MAX_ITEMS
               = Some run ∧
          files' = match caught run with
                   | None => <[temp_file category.1
                                 := ProductsJson (products (final run))]> files
                   | Some _ =>
                       if bool_decide (EvOpen (temp_file category.1)
                                       ∈ trace (final run))
                       then <[temp_file category.1 := NotJson]> files
                       else files
                   end
    end.
Proof.
  unfold crawl_category, crawl_musinsa_call.
  destruct (setup_driver (envs category.1)) as [e|drv]; [by eexists|].
  destruct (crawl_musinsa_run drv category.2 (temp_file category.1) MAX_ITEMS)
    as (run & Hrun & _).
  rewrite Hrun. simpl. eexists. split; [done|]. exists run. split; [done|].
  by apply (files_after_run drv category.2 (temp_file category.1) MAX_ITEMS).
Qed.

Lemma crawl_category_other files files' (category : string * string)
    (path : string) :
  crawl_category envs files category = Some files' →
  path ≠ temp_file category.1 →
  files' !! path = files !! path.
Proof.
  intros Hc Hne.
  destruct (crawl_category_cases files category) as (f & Hf & Hcase).
  rewrite Hc in Hf. injection Hf as <-.
  destruct (setup_driver (envs category.1)); [by subst|].
  destruct Hcase as (run & _ & ->).
  destruct (caught run); [destruct (bool_decide _)|];
    by rewrite ?lookup_insert_ne.
Qed.

Lemma crawl_categories_total files cats :
  ∃ files', crawl_categories envs files cats = Some files'.
Proof.
  revert files. induction cats as [|c cats IH]; intros files; simpl; [eauto|].
  destruct (crawl_category_cases files c) as (f & -> & _). simpl. apply IH.
Qed.

Lemma crawl_categories_other files files' cats (key : string) :
  crawl_categories envs files cats = Some files' →
  key ∉ cats.*1 →
  files' !! temp_file key = files !! temp_file key.
Proof.
  revert files. induction cats as [|c cats IH]; intros files; simpl.
  - by intros [= ->].
  - destruct (crawl_category envs files c) as [f|] eqn:Hc; [|done]. simpl.
    intros Hrest Hnot. apply not_elem_of_cons in Hnot as [Hne Hnot].
    rewrite (IH f Hrest Hnot).
    apply (crawl_category_other files f c); [done|].
    intros Heq. apply Hne. by apply temp_file_inj.
Qed.

Lemma crawl_categories_app files cats1 cats2 :
  crawl_categories envs files (cats1 ++ cats2)
  = crawl_categories envs files cats1 ≫= λ f, crawl_categories envs f cats2.
Proof.
  revert files. induction cats1 as [|c cats1 IH]; intros files; simpl; [done|].
  destruct (crawl_category envs files c); simpl; [apply IH|done].
Qed.

(** The temp file of a category after the first loop is what the run of
    that category left. *)
Lemma crawl_categories_own files files' cats (key url : string) :
  NoDup cats.*1 → (key, url) ∈ cats →
  crawl_categories envs files cats = Some files' →
  ∃ f, crawl_category envs files (key, url) = Some f ∧
       files' !! temp_file key = f !! temp_file key.
Proof.
  intros Hnd Hin Hall.
  apply list_elem_of_split in Hin as (l1 & l2 & ->).
  rewrite fmap_app, fmap_cons in Hnd. simpl in Hnd.
  apply NoDup_app in Hnd as (_ & Hl1 & Hnd).
  apply NoDup_cons in Hnd as [Hl2 _].
  assert (key ∉ l1.*1) as Hk1.
  { intros Hk. apply (Hl1 key Hk). apply elem_of_cons. by left. }
  rewrite crawl_categories_app in Hall.
  destruct (crawl_categories envs files l1) as [f1|] eqn:H1; [|done].
  simpl in Hall.
  destruct (crawl_category envs f1 (key, url)) as [f2|] eqn:H2; [|done].
  simpl in Hall.
  destruct (crawl_category_cases files (key, url)) as (f & Hf & Hcase).
  destruct (crawl_category_cases f1 (key, url)) as (f2' & Hf2 & Hcase2).
  rewrite H2 in Hf2. injection Hf2 as <-.
  exists f. split; [done|].
  rewrite (crawl_categories_other f2 files' l2 key Hall Hl2).
  pose proof (crawl_categories_other files f1 l1 key H1 Hk1) as Hsame.
  simpl in Hcase, Hcase2.
  destruct (setup_driver (envs key)) as [e|drv]; [by subst|].
  destruct Hcase as (run & Hrun & ->). destruct Hcase2 as (run2 & Hrun2 & ->).
  rewrite Hrun in Hrun2. injection Hrun2 as <-.
  destruct (caught run); [destruct (bool_decide _)|];
    by rewrite ?lookup_insert_eq.
Qed.

Lemma main_with_total cats files :
  ∃ db, main_with cats envs files = Some db ∧ db.*1 = cats.*1.
Proof.
  unfold main_with.
  destruct (crawl_categories_total files cats) as (f & ->). simpl.
  eexists. split; [done|]. rewrite <- list_fmap_compose. done.
Qed.

End Script.

Lemma categories_NoDup : NoDup categories.*1.
Proof. apply (bool_decide_unpack _). by vm_compute. Qed.

(** X8. The script always ends with a database that has one entry per
    category, in the order of [categories], whatever failed on the way; and
    every entry is a value [len] applies to (a list of products, or the
    sized JSON value an old temp file held). *)
Theorem db_lists_every_category (cats : list (string * string))
    (envs : string → SetupEnv) (files : gmap string FileData) :
  ∃ db,
    main_with cats envs files = Some db ∧
    db.*1 = cats.*1 ∧
    ∀ key data, (key, data) ∈ db →
      (∃ ps, data = ProductsJson ps) ∨ data = OtherJson true.
Proof.
  destruct (main_with_total envs cats files) as (db & Hdb & Hkeys).
  exists db. split; [done|]. split; [done|].
  intros key data Hin. unfold main_with in Hdb.
  destruct (crawl_categories envs files cats) as [f|]; [|done].
  simpl in Hdb. injection Hdb as <-.
  apply list_elem_of_fmap in Hin as (c & [= -> ->] & _).
  unfold load_category.
  destruct (f !! temp_file c.1) as [[ps|[]|]|]; eauto.
Qed.

(** X9. A category whose run caught nothing gets, in the database, the
    list its run returned, also when an older temp file of that category
    lay there: the categories do not overwrite each other's files. *)
Theorem fresh_category_result (cats : list (string * string))
    (envs : string → SetupEnv) (files : gmap string FileData)
    (key url : string) (drv : Driver) (run : Run)
    (db : list (string * FileData)) :
  NoDup cats.*1 →
  (key, url) ∈ cats →
  setup_driver (envs key) = inr drv →
  crawl_musinsa drv url (temp_file key) MAX_ITEMS = Some run →
  caught run = None →
  main_with cats envs files = Some db →
  (key, ProductsJson (products (final run))) ∈ db ∧
  returned run = Return (products (final run)).
Proof.
  intros Hnd Hin Hsetup Hrun Hcaught Hdb.
  split.
  2:{ destruct (crawl_musinsa_run drv url (temp_file key) MAX_ITEMS)
        as (run' & Hrun' & Hret & _).
      rewrite Hrun in Hrun'. by injection Hrun' as <-. }
  unfold main_with in Hdb.
  destruct (crawl_categories envs files cats) as [f|] eqn:Hall; [|done].
  simpl in Hdb. injection Hdb as <-.
  apply list_elem_of_fmap. exists (key, url). split; [|done]. simpl. f_equal.
  destruct (crawl_categories_own envs files f cats key url Hnd Hin Hall)
    as (f1 & Hf1 & Hfile).
  destruct (crawl_category_cases envs files (key, url)) as (f1' & Hf1' & Hcase).
  rewrite Hf1 in Hf1'. injection Hf1' as <-.
  simpl in Hcase. rewrite Hsetup in Hcase.
  destruct Hcase as (run' & Hrun' & ->).
  rewrite Hrun in Hrun'. injection Hrun' as <-.
  rewrite Hcaught in Hfile. rewrite lookup_insert_eq in Hfile.
  unfold load_category. by rewrite Hfile.
Qed.

Lemma fresh_category_result_witness :
  ∃ run db,
    crawl_musinsa (static_page [shirt]) hoodie_url (temp_file "hoodie") MAX_ITEMS
    = Some run ∧
    caught run = None ∧
    main (λ _, setup_ok (static_page [shirt])) old_files = Some db ∧
    ("hoodie", ProductsJson (products (final run))) ∈ db.
Proof.
  destruct (crawl_musinsa_run (static_page [shirt]) hoodie_url
              (temp_file "hoodie") MAX_ITEMS) as (run & Hrun & _).
  destruct (main_with_total (λ _, setup_ok (static_page [shirt]))
              categories old_files) as (db & Hdb & _).
  assert (caught <$> crawl_musinsa (static_page [shirt]) hoodie_url
                       (temp_file "hoodie") MAX_ITEMS = Some None) as Hc
    by (vm_compute; reflexivity).
  rewrite Hrun in Hc. injection Hc as Hc.
  assert (("hoodie", hoodie_url) ∈ categories) as Hin
    by (apply (bool_decide_unpack _); vm_compute; exact I).
  exists run, db. split; [exact Hrun|]. split; [exact Hc|]. split; [exact Hdb|].
  exact (proj1 (fresh_category_result categories
                  (λ _, setup_ok (static_page [shirt])) old_files
                  "hoodie" hoodie_url (static_page [shirt]) run db
                  categories_NoDup Hin eq_refl Hrun Hc Hdb)).
Defined.

(** The entry of a category in the database is what the second loop
    loads from the temp file as the run of that category left it. *)
Lemma db_entry (cats : list (string * string)) (envs : string → SetupEnv)
    (files f : gmap string FileData) (key url : string)
    (db : list (string * FileData)) :
  NoDup cats.*1 →
  (key, url) ∈ cats →
  main_with cats envs files = Some db →
  crawl_category envs files (key, url) = Some f →
  (key, load_category f key) ∈ db.
Proof.
  intros Hnd Hin Hdb Hf. unfold main_with in Hdb.
  destruct (crawl_categories envs files cats) as [f'|] eqn:Hall; [|done].
  simpl in Hdb. injection Hdb as <-.
  apply list_elem_of_fmap. exists (key, url). split; [|done]. simpl. f_equal.
  destruct (crawl_categories_own envs files f' cats key url Hnd Hin Hall)
    as (f1 & Hf1 & Hfile).
  rewrite Hf in Hf1. injection Hf1 as <-.
  unfold load_category. by rewrite Hfile.
Qed.

(** X10. A category whose run failed before it opened its temp file (the
    driver could not be set up, or the run caught an exception and had not
    opened the file) gets, in the database, whatever the temp file held
    before the script started: the products of an earlier run when such a
    file lay there, the empty list when there was none.  A category whose
    run caught an exception after it had opened the file gets the empty
    list: what an earlier run left there is lost. *)
Theorem failed_category_keeps_old_file (cats : list (string * string))
    (envs : string → SetupEnv) (files : gmap string FileData)
    (key url : string) (db : list (string * FileData)) :
  NoDup cats.*1 →
  (key, url) ∈ cats →
  main_with cats envs files = Some db →
  ((∃ e, setup_driver (envs key) = inl e) ∨
   (∃ drv run e, setup_driver (envs key) = inr drv ∧
                 crawl_musinsa drv url (temp_file key) MAX_ITEMS = Some run ∧
                 caught run = Some e ∧
                 EvOpen (temp_file key) ∉ trace (final run)) →
   (key, load_category files key) ∈ db ∧
   (∀ old, files !! temp_file key = Some (ProductsJson old) →
           (key, ProductsJson old) ∈ db) ∧
   (files !! temp_file key = None → (key, ProductsJson []) ∈ db)) ∧
  (∀ drv run e,
     setup_driver (envs key) = inr drv →
     crawl_musinsa drv url (temp_file key) MAX_ITEMS = Some run →
     caught run = Some e →
     EvOpen (temp_file key) ∈ trace (final run) →
     (key, ProductsJson []) ∈ db).
Proof.
  intros Hnd Hin Hdb.
  destruct (crawl_category_cases envs files (key, url)) as (f & Hf & Hcase).
  pose proof (db_entry cats envs files f key url db Hnd Hin Hdb Hf) as Hentry.
  simpl in Hcase. split.
  - intros Hfail.
    assert (f = files) as ->.
    { destruct Hfail as [[e He]|(drv & run & e & Hs & Hrun & Hc & Hno)].
      - by rewrite He in Hcase.
      - rewrite Hs in Hcase. destruct Hcase as (run' & Hrun' & ->).
        rewrite Hrun in Hrun'. injection Hrun' as <-. rewrite Hc.
        by rewrite bool_decide_eq_false_2. }
    split; [done|]. unfold load_category in Hentry. split.
    + intros old Hold. by rewrite Hold in Hentry.
    + intros Hnone. by rewrite Hnone in Hentry.
  - intros drv run e Hs Hrun Hc Hopen.
    rewrite Hs in Hcase. destruct Hcase as (run' & Hrun' & ->).
    rewrite Hrun in Hrun'. injection Hrun' as <-.
    rewrite Hc, bool_decide_eq_true_2 in Hentry by done.
    unfold load_category in Hentry. by rewrite lookup_insert_eq in Hentry.
Qed.

Lemma failed_category_keeps_old_file_witness :
  (∃ db,
     main (λ _, setup_broken) old_files = Some db ∧
     ("hoodie", ProductsJson [old_product]) ∈ db) ∧
  (∃ db,
     main (λ _, setup_ok (full_disk [shirt])) old_files = Some db ∧
     ("hoodie", ProductsJson []) ∈ db).
Proof.
  assert (("hoodie", hoodie_url) ∈ categories) as Hin
    by (apply (bool_decide_unpack _); vm_compute; exact I).
  split.
  - destruct (main_with_total (λ _, setup_broken) categories old_files)
      as (db & Hdb & _).
    exists db. split; [exact Hdb|].
    refine (proj1 (proj2 (proj1 (failed_category_keeps_old_file categories
                                   (λ _, setup_broken) old_files
                                   "hoodie" hoodie_url db
                                   categories_NoDup Hin Hdb) _))
              [old_product] _).
    + left. eexists. reflexivity.
    + reflexivity.
  - destruct (main_with_total (λ _, setup_ok (full_disk [shirt])) categories
                old_files) as (db & Hdb & _).
    destruct (crawl_musinsa_run (full_disk [shirt]) hoodie_url
                (temp_file "hoodie") MAX_ITEMS) as (run & Hrun & _).
    assert ((λ run, (caught run,
                     bool_decide (EvOpen (temp_file "hoodie")
                                  ∈ trace (final run))))
              <$> crawl_musinsa (full_disk [shirt]) hoodie_url
                    (temp_file "hoodie") MAX_ITEMS
            = Some (Some OSError, true)) as Hc
      by (vm_compute; reflexivity).
    rewrite Hrun in Hc. injection Hc as Hc Hopen.
    exists db. split; [exact Hdb|].
    exact (proj2 (failed_category_keeps_old_file categories
                    (λ _, setup_ok (full_disk [shirt])) old_files
                    "hoodie" hoodie_url db categories_NoDup Hin Hdb)
             (full_disk [shirt]) run OSError eq_refl Hrun Hc
             (bool_decide_eq_true_1 _ Hopen)).
Defined.

(** * File names of downloaded images *)

Section FileNames.

Implicit Types (c d : Ascii.ascii) (s t : string).

Lemma split_nonempty c s : split c s ≠ [].
Proof.
  induction s as [|a s IH]; simpl; [done|].
  destruct (Ascii.eqb a c); [done|]. by destruct (split c s).
Qed.

Lemma head_split c s : head (split c s) = Some (split_head c s).
Proof.
  induction s as [|a s IH]; simpl; [done|].
  destruct (Ascii.eqb a c); [done|].
  destruct (split c s) as [|piece pieces]; [done|].
  simpl in *. by injection IH as ->.
Qed.

Lemma split_no_sep c s : str_contains c s = false → split c s = [s].
Proof.
  induction s as [|a s IH]; simpl; [done|].
  destruct (Ascii.eqb a c); [done|]. intros H. by rewrite IH.
Qed.

Lemma split_two c s :
  str_contains c s = true → ∃ p q ps, split c s = p :: q :: ps.
Proof.
  induction s as [|a s IH]; simpl; [done|].
  destruct (Ascii.eqb a c).
  - intros _. pose proof (split_nonempty c s).
    destruct (split c s) as [|q ps]; [done|]. by eexists _, _, _.
  - intros Hs. destruct (IH Hs) as (p & q & ps & ->). by eexists _, _, _.
Qed.

(** The last piece, one character at a time. *)
Lemma last_split_cons c a s :
  last (split c (String a s))
  = if Ascii.eqb a c then last (split c s)
    else if str_contains c s then last (split c s)
    else Some (String a s).
Proof.
  simpl. destruct (Ascii.eqb a c) eqn:Ha.
  - pose proof (split_nonempty c s). by destruct (split c s).
  - destruct (str_contains c s) eqn:Hs.
    + by destruct (split_two c s Hs) as (p & q & ps & ->).
    + by rewrite split_no_sep.
Qed.

Lemma last_split_clean c s :
  ∃ t, last (split c s) = Some t ∧ str_contains c t = false.
Proof.
  induction s as [|a s IH]; [by exists ""|].
  rewrite last_split_cons. destruct (Ascii.eqb a c) eqn:Ha; [done|].
  destruct (str_contains c s) eqn:Hs; [done|].
  exists (String a s). split; [done|]. simpl. by rewrite Ha.
Qed.

Lemma split_head_clean c s : str_contains c (split_head c s) = false.
Proof.
  induction s as [|a s IH]; simpl; [done|].
  destruct (Ascii.eqb a c) eqn:Ha; [done|]. simpl. by rewrite Ha.
Qed.

Lemma split_head_keeps_clean c d s :
  str_contains d s = false → str_contains d (split_head c s) = false.
Proof.
  induction s as [|a s IH]; simpl; [done|].
  destruct (Ascii.eqb a d) eqn:Had; [done|]. intros Hs.
  destruct (Ascii.eqb a c); [done|]. simpl. rewrite Had. by apply IH.
Qed.

Lemma append_nil_l t : "" +:+ t = t.
Proof. reflexivity. Qed.

Lemma append_cons a s t : String a s +:+ t = String a (s +:+ t).
Proof. reflexivity. Qed.

Lemma append_assoc_l (a b c : string) : a +:+ (b +:+ c) = (a +:+ b) +:+ c.
Proof. induction a as [|x a IH]; [done|]. by rewrite !append_cons, IH. Qed.

Lemma append_assoc_sep s c t : (s +:+ String c "") +:+ t = s +:+ String c t.
Proof.
  induction s as [|a s IH]; [done|]. by rewrite !append_cons, IH.
Qed.

Lemma str_contains_append c s t :
  str_contains c (s +:+ t) = str_contains c s || str_contains c t.
Proof.
  induction s as [|a s IH]; [done|].
  rewrite append_cons. simpl. by destruct (Ascii.eqb a c).
Qed.

Lemma rstrip_clean c t : str_contains c t = false → rstrip c t = t.
Proof.
  induction t as [|a t IH]; simpl; [done|].
  destruct (Ascii.eqb a c) eqn:Ha; [done|]. intros Ht. rewrite IH by done.
  by destruct t.
Qed.

(** A string that does not end in [c] is left as it is. *)
Lemma rstrip_keep c s t :
  t ≠ "" → str_contains c t = false → rstrip c (s +:+ t) = s +:+ t.
Proof.
  intros Hne Ht. induction s as [|a s IH].
  - rewrite append_nil_l. by apply rstrip_clean.
  - rewrite append_cons. simpl. rewrite IH.
    destruct (s +:+ t) eqn:Hst; [|done].
    destruct s; [by rewrite append_nil_l in Hst|by rewrite append_cons in Hst].
Qed.

Lemma rstrip_trailing c s : rstrip c (s +:+ String c "") = rstrip c s.
Proof.
  induction s as [|a s IH].
  - rewrite append_nil_l. simpl. by rewrite Ascii.eqb_refl.
  - rewrite append_cons. simpl. by rewrite IH.
Qed.

Lemma last_split_app c s t :
  last (split c (s +:+ String c t)) = last (split c t).
Proof.
  induction s as [|a s IH].
  - by rewrite append_nil_l, last_split_cons, Ascii.eqb_refl.
  - rewrite append_cons, last_split_cons, IH.
    destruct (Ascii.eqb a c); [done|].
    rewrite str_contains_append. simpl. rewrite Ascii.eqb_refl.
    by rewrite orb_true_r.
Qed.

Lemma split_head_id c s : str_contains c s = false → split_head c s = s.
Proof.
  induction s as [|a s IH]; simpl; [done|].
  destruct (Ascii.eqb a c); [done|]. intros Hs. by rewrite IH.
Qed.

Lemma filename_trailing_slash (url : string) :
  filename_from_url (url +:+ "/") = filename_from_url url.
Proof. unfold filename_from_url. by rewrite rstrip_trailing. Qed.

(** The file name of [dir/t] when [t] is not empty and has no slash. *)
Lemma filename_of_last_piece (dir t : string) :
  t ≠ "" → str_contains "/" t = false →
  filename_from_url (dir +:+ String "/" t) = split_head "?" t.
Proof.
  intros Hne Ht. unfold filename_from_url.
  rewrite <- (append_assoc_sep dir "/" t).
  rewrite (rstrip_keep "/" (dir +:+ "/") t Hne Ht).
  rewrite append_assoc_sep, last_split_app, (split_no_sep "/" t Ht). simpl.
  by rewrite head_split.
Qed.

End FileNames.

(** X11. The name [filename_from_url] gives never holds a slash or a
    question mark, and a slash at the end of the URL does not change it. *)
Theorem filename_has_no_separator (url : string) :
  str_contains "/" (filename_from_url url) = false ∧
  str_contains "?" (filename_from_url url) = false ∧
  filename_from_url (url +:+ "/") = filename_from_url url.
Proof.
  split_and!.
  - unfold filename_from_url.
    destruct (last_split_clean "/" (rstrip "/" url)) as (t & -> & Ht).
    simpl. rewrite head_split. simpl. by apply split_head_keeps_clean.
  - unfold filename_from_url.
    destruct (last_split_clean "/" (rstrip "/" url)) as (t & -> & Ht).
    simpl. rewrite head_split. simpl. apply split_head_clean.
  - apply filename_trailing_slash.
Qed.

(** X12. For a URL [dir/name], with or without a query string and with or
    without a slash at the end, [filename_from_url] gives [name], provided
    [name] is not empty and has no slash or question mark and the query has
    no slash. *)
Theorem filename_of_url (dir name query : string) :
  name ≠ "" →
  str_contains "/" name = false →
  str_contains "?" name = false →
  str_contains "/" query = false →
  filename_from_url (dir +:+ "/" +:+ name) = name ∧
  filename_from_url (dir +:+ "/" +:+ name +:+ "/") = name ∧
  filename_from_url (dir +:+ "/" +:+ name +:+ "?" +:+ query) = name.
Proof.
  intros Hne Hslash Hmark Hquery.
  assert (filename_from_url (dir +:+ String "/" name) = name) as Hplain.
  { rewrite filename_of_last_piece by done. by apply split_head_id. }
  split_and!.
  - exact Hplain.
  - rewrite (append_assoc_l "/" name "/"), (append_assoc_l dir ("/" +:+ name) "/").
    rewrite filename_trailing_slash. exact Hplain.
  - change (dir +:+ "/" +:+ name +:+ "?" +:+ query)
      with (dir +:+ String "/" (name +:+ String "?" query)).
    rewrite filename_of_last_piece.
    + by apply split_head_app.
    + destruct name; [done|]. by rewrite append_cons.
    + rewrite str_contains_append. simpl. by rewrite Hslash, Hquery.
Qed.

Lemma filename_of_url_witness :
  filename_from_url "https://image.msscdn.net/images/goods_img/img.jpg?w=260"
  = "img.jpg".
Proof.
  apply (proj2 (proj2 (filename_of_url "https://image.msscdn.net/images/goods_img"
                         "img.jpg" "w=260" ltac:(discriminate)
                         eq_refl eq_refl eq_refl))).
Defined.

(** * The database scripts: indices and images *)

Section Database.

Context (int_of_str : string → option Z).
Implicit Types (data : list (string * jcategory)) (value : list jitem).

Lemma index_from_lookup (n : nat) value (i : nat) :
  index_from n value !! i = set_index (n + i) <$> value !! i.
Proof.
  revert n i. induction value as [|item value IH]; intros n [|i]; simpl;
    try done.
  - by rewrite Nat.add_0_r.
  - rewrite IH. by rewrite Nat.add_succ_r.
Qed.

Lemma index_from_length (n : nat) value :
  length (index_from n value) = length value.
Proof. revert n. induction value as [|item value IH]; intros n; simpl; auto. Qed.

Lemma set_index_idemp (n : nat) (item : jitem) :
  set_index n (set_index n item) = set_index n item.
Proof. destruct item; simpl; [|done]. by rewrite insert_insert_eq. Qed.

Lemma index_from_idemp (n : nat) value :
  index_from n (index_from n value) = index_from n value.
Proof.
  revert n. induction value as [|item value IH]; intros n; simpl; [done|].
  by rewrite set_index_idemp, IH.
Qed.

Lemma index_from_dicts (n : nat) value :
  length (filter (λ item, is_dict item = true) (index_from n value))
  = length (filter (λ item, is_dict item = true) value).
Proof.
  revert n. induction value as [|item value IH]; intros n; simpl; [done|].
  rewrite !filter_cons. destruct item; simpl; [|apply IH].
  by rewrite IH.
Qed.

Lemma image_of_indexed (pos : nat) (fields : gmap string jvalue) :
  image_of int_of_str pos (<["index" := JInt (Z.of_nat pos)]> fields)
  = image_of int_of_str pos (delete "index" fields).
Proof.
  unfold image_of.
  rewrite lookup_insert_ne, lookup_delete_ne by done.
  by rewrite lookup_insert_eq, lookup_delete_eq.
Qed.

Lemma images_of_items_indexed (category : string) (pos : nat) value :
  images_of_items int_of_str category pos (index_from pos value)
  = images_of_items int_of_str category pos (delete_index <$> value).
Proof.
  revert pos. induction value as [|[fields|] value IH]; intros pos; simpl;
    [done| |done].
  by rewrite IH, image_of_indexed.
Qed.

Lemma iter_images_indexed data :
  iter_images int_of_str (add_indices data)
  = iter_images int_of_str (without_index data).
Proof.
  induction data as [|[key [value|]] data IH]; simpl; [done| |done].
  by rewrite images_of_items_indexed, IH.
Qed.

Lemma images_of_items_dict (category : string) (pos : nat)
    (it : gmap string jvalue) value :
  images_of_items int_of_str category pos (IDict it :: value)
  = (match image_of int_of_str pos it with
     | Some (idx, url) =>
         (category, idx, url)
           :: (images_of_items int_of_str category (S pos) value).1
     | None => (images_of_items int_of_str category (S pos) value).1
     end,
     (images_of_items int_of_str category (S pos) value).2).
Proof.
  simpl. by destruct (images_of_items int_of_str category (S pos) value).
Qed.

Lemma iter_images_list (key : string) value data :
  iter_images int_of_str ((key, CList value) :: data)
  = if (images_of_items int_of_str key 1 value).2
    then ((images_of_items int_of_str key 1 value).1, true)
    else ((images_of_items int_of_str key 1 value).1
            ++ (iter_images int_of_str data).1,
          (iter_images int_of_str data).2).
Proof.
  simpl. destruct (images_of_items int_of_str key 1 value) as [here []];
    [done|]. by destruct (iter_images int_of_str data).
Qed.

(** The image of an object without [index] field is numbered by its
    position. *)
Lemma image_of_position (pos : nat) (fields : gmap string jvalue)
    (idx : Z) (url : string) :
  image_of int_of_str pos (delete "index" fields) = Some (idx, url) →
  idx = Z.of_nat pos.
Proof.
  unfold image_of. rewrite lookup_delete_eq.
  destruct (delete "index" fields !! "image_url") as [[| |u|]|]; try done.
  destruct (String.eqb u ""); [done|]. by intros [= <- _].
Qed.

(** Without [index] fields the index is the position. *)
Lemma images_of_items_positions (category : string) (pos : nat) value
    (t : string * Z * string) :
  t ∈ (images_of_items int_of_str category pos (delete_index <$> value)).1 →
  t.1.1 = category ∧ (Z.of_nat pos ≤ t.1.2)%Z.
Proof.
  revert pos. induction value as [|[fields|] value IH]; intros pos.
  - intros H. by apply not_elem_of_nil in H.
  - rewrite fmap_cons. cbn [delete_index]. rewrite images_of_items_dict.
    assert (t ∈ (images_of_items int_of_str category (S pos)
                   (delete_index <$> value)).1 →
            t.1.1 = category ∧ (Z.of_nat pos ≤ t.1.2)%Z) as Hmore.
    { intros Ht. destruct (IH (S pos) Ht). split; [done|lia]. }
    destruct (image_of int_of_str pos (delete "index" fields))
      as [[idx url]|] eqn:Him; [|exact Hmore].
    apply image_of_position in Him as ->.
    cbn [fst]. intros [->|Ht]%elem_of_cons; [|by apply Hmore].
    simpl. split; [done|lia].
  - intros H. by apply not_elem_of_nil in H.
Qed.

Lemma images_of_items_NoDup (category : string) (pos : nat) value :
  NoDup ((λ t : string * Z * string, t.1)
           <$> (images_of_items int_of_str category pos
                  (delete_index <$> value)).1).
Proof.
  revert pos. induction value as [|[fields|] value IH]; intros pos.
  - apply NoDup_nil_2.
  - rewrite fmap_cons. cbn [delete_index]. rewrite images_of_items_dict.
    destruct (image_of int_of_str pos (delete "index" fields))
      as [[idx url]|] eqn:Him; [|apply IH].
    apply image_of_position in Him as ->.
    cbn [fst]. rewrite fmap_cons. apply NoDup_cons. split; [|apply IH].
    intros (t & Heq & Ht)%list_elem_of_fmap.
    destruct (images_of_items_positions category (S pos) value t Ht)
      as [_ Hle].
    rewrite <- Heq in Hle. simpl in Hle. lia.
  - apply NoDup_nil_2.
Qed.

Lemma iter_images_categories data (t : string * Z * string) :
  t ∈ (iter_images int_of_str (without_index data)).1 → t.1.1 ∈ data.*1.
Proof.
  induction data as [|[key [value|]] data IH].
  - intros H. by apply not_elem_of_nil in H.
  - unfold without_index. rewrite !fmap_cons. cbn [fst snd].
    rewrite iter_images_list. fold (without_index data).
    pose proof (images_of_items_positions key 1 value t) as Hhere.
    destruct ((images_of_items int_of_str key 1 (delete_index <$> value)).2);
      cbn [fst].
    + intros Ht. destruct (Hhere Ht) as [-> _]. apply elem_of_cons. by left.
    + intros [Ht|Ht]%elem_of_app; apply elem_of_cons.
      * destruct (Hhere Ht) as [-> _]. by left.
      * right. by apply IH.
  - unfold without_index. rewrite !fmap_cons. cbn [fst snd].
    fold (without_index data). simpl.
    intros Ht. apply elem_of_cons. right. by apply IH.
Qed.

Lemma iter_images_NoDup data :
  NoDup data.*1 →
  NoDup ((λ t : string * Z * string, t.1)
           <$> (iter_images int_of_str (without_index data)).1).
Proof.
  induction data as [|[key [value|]] data IH].
  - intros _. apply NoDup_nil_2.
  - rewrite fmap_cons. cbn [fst]. intros [Hkey Hnd]%NoDup_cons.
    unfold without_index. rewrite !fmap_cons. cbn [fst snd].
    rewrite iter_images_list. fold (without_index data).
    pose proof (images_of_items_NoDup key 1 value) as Hhere.
    destruct ((images_of_items int_of_str key 1 (delete_index <$> value)).2);
      cbn [fst]; [done|].
    rewrite fmap_app. apply NoDup_app. split; [done|].
    split; [|by apply IH].
    intros pair (t1 & -> & Ht1)%list_elem_of_fmap
           (t2 & Heq & Ht2)%list_elem_of_fmap.
    apply Hkey.
    destruct (images_of_items_positions key 1 value t1 Ht1) as [<- _].
    rewrite Heq. by apply iter_images_categories.
  - rewrite fmap_cons. cbn [fst]. intros [_ Hnd]%NoDup_cons.
    unfold without_index. rewrite !fmap_cons. cbn [fst snd].
    fold (without_index data). simpl. by apply IH.
Qed.

End Database.

(** X13. [add_indices] gives every object of every category list the
    field [index] with its 1-based position in the list and leaves
    everything else as it is (keys, order, lengths, the other fields,
    elements that are no objects); running it twice gives what running it
    once gives, with the same count of indexed items. *)
Theorem add_indices_positions (data : list (string * jcategory)) :
  (add_indices data).*1 = data.*1 ∧
  add_indices (add_indices data) = add_indices data ∧
  changed (add_indices data) = changed data ∧
  (∀ k key, data !! k = Some (key, CNotList) →
            add_indices data !! k = Some (key, CNotList)) ∧
  (∀ k key value, data !! k = Some (key, CList value) →
     ∃ value',
       add_indices data !! k = Some (key, CList value') ∧
       length value' = length value ∧
       (∀ i, value !! i = Some INotDict → value' !! i = Some INotDict) ∧
       (∀ i fields, value !! i = Some (IDict fields) →
          ∃ fields',
            value' !! i = Some (IDict fields') ∧
            fields' !! "index" = Some (JInt (Z.of_nat (S i))) ∧
            ∀ field, field ≠ "index" → fields' !! field = fields !! field)).
Proof.
  split_and!.
  - unfold add_indices. rewrite <- list_fmap_compose. done.
  - unfold add_indices. rewrite <- list_fmap_compose.
    apply list_fmap_ext. intros k [key [value|]] _; simpl; [|done].
    by rewrite index_from_idemp.
  - induction data as [|[key [value|]] data IH]; simpl; [done| |done].
    by rewrite index_from_dicts, IH.
  - intros k key Hk. unfold add_indices. by rewrite list_lookup_fmap, Hk.
  - intros k key value Hk. exists (index_from 1 value).
    split; [unfold add_indices; by rewrite list_lookup_fmap, Hk|].
    split; [apply index_from_length|]. split.
    + intros i Hi. by rewrite index_from_lookup, Hi.
    + intros i fields Hi. eexists. rewrite index_from_lookup, Hi. simpl.
      split; [done|]. split; [by rewrite lookup_insert_eq|].
      intros field Hne. by rewrite lookup_insert_ne.
Qed.

(** X14. After [add_indices], [iter_images] yields what it yields for the
    same database without any [index] field: every image is numbered by its
    position in the category list, whatever [index] values the database
    held before. *)
Theorem images_after_add_indices (int_of_str : string → option Z)
    (data : list (string * jcategory)) :
  iter_images int_of_str (add_indices data)
  = iter_images int_of_str (without_index data).
Proof. apply iter_images_indexed. Qed.

(** X15. After [add_indices], no two images that [iter_images] yields share
    category and index, so [download_all] gives each its own file name
    ([category_index.ext] in the folder of the category).  The keys of the
    database, those of a JSON object, are distinct. *)
Theorem indexed_images_do_not_clash (int_of_str : string → option Z)
    (data : list (string * jcategory)) :
  NoDup data.*1 →
  NoDup ((λ t : string * Z * string, t.1)
           <$> (iter_images int_of_str (add_indices data)).1).
Proof. intros Hnd. rewrite iter_images_indexed. by apply iter_images_NoDup. Qed.

Lemma indexed_images_do_not_clash_witness :
  NoDup clashing_db.*1 ∧
  (λ t : string * Z * string, t.1)
    <$> (iter_images (λ _, None) (add_indices clashing_db)).1
  = [("hoodie", 1%Z); ("hoodie", 2%Z); ("shirt", 1%Z)] ∧
  NoDup ((λ t : string * Z * string, t.1)
           <$> (iter_images (λ _, None) (add_indices clashing_db)).1).
Proof.
  assert (NoDup clashing_db.*1) as Hnd
    by (apply (bool_decide_unpack _); vm_compute; exact I).
  split; [exact Hnd|]. split; [vm_compute; reflexivity|].
  exact (indexed_images_do_not_clash (λ _, None) clashing_db Hnd).
Defined.

Section CrawlerDatabase.

Context (int_of_str : string → option Z).

Lemma image_of_product (pos : nat) (p : Product) (fields : gmap string jvalue) :
  json_of_product p = IDict fields →
  image_of int_of_str pos fields
  = match image_url p with
    | Some url => if String.eqb url "" then None else Some (Z.of_nat pos, url)
    | None => None
    end.
Proof.
  intros [= <-]. unfold image_of.
  rewrite !(lookup_insert_ne _ _ "image_url") by done.
  rewrite lookup_insert_eq.
  rewrite !(lookup_insert_ne _ _ "index") by done. rewrite lookup_empty.
  by destruct (image_url p).
Qed.

Lemma images_of_products (category : string) (pos : nat) (ps : list Product) :
  images_of_items int_of_str category pos (json_of_product <$> ps)
  = (product_images category pos ps, false).
Proof.
  revert pos. induction ps as [|p ps IH]; intros pos; [done|].
  rewrite fmap_cons.
  change (json_of_product p)
    with (IDict (<["product_url" := json_of_field (product_url p)]>
                 (<["brand_name" := json_of_field (brand_name p)]>
                  (<["product_name" := json_of_field (product_name p)]>
                   (<["price" := json_of_field (price p)]>
                    (<["image_url" := json_of_field (image_url p)]> ∅)))))).
  rewrite images_of_items_dict, IH, (image_of_product pos p _ eq_refl).
  cbn [fst snd product_images].
  destruct (image_url p) as [url|]; [|done]. by destruct (String.eqb url "").
Qed.

Lemma iter_images_products (db : list (string * list Product)) :
  iter_images int_of_str (json_of_db db) = (db_images db, false).
Proof.
  induction db as [|[key ps] db IH]; [done|].
  unfold json_of_db. rewrite fmap_cons. cbn [fst snd].
  rewrite iter_images_list, images_of_products. cbn [fst snd].
  fold (json_of_db db). rewrite IH. done.
Qed.

Lemma without_index_products (db : list (string * list Product)) :
  without_index (json_of_db db) = json_of_db db.
Proof.
  unfold without_index, json_of_db. rewrite <- list_fmap_compose.
  apply list_fmap_ext. intros k [key ps] _. simpl. do 2 f_equal.
  rewrite <- list_fmap_compose. apply list_fmap_ext. intros i p _. simpl.
  unfold json_of_product.
  f_equal; try (apply delete_id; by rewrite !lookup_insert_ne, lookup_empty).
Qed.

End CrawlerDatabase.

(** X16. On a database as the crawler writes it (per category, the list of
    collected products), [iter_images] never fails: it yields, in order,
    one image for every product whose [image_url] is a non-empty string,
    numbered by the 1-based position of the product in its category, and
    skips the products without image.  Running [add_indices] first does not
    change what it yields. *)
Theorem crawler_database_images (int_of_str : string → option Z)
    (db : list (string * list Product)) :
  iter_images int_of_str (json_of_db db) = (db_images db, false) ∧
  iter_images int_of_str (add_indices (json_of_db db)) = (db_images db, false).
Proof.
  split; [apply iter_images_products|].
  by rewrite iter_images_indexed, without_index_products, iter_images_products.
Qed.
